(** * Fourier normal integration after Kottler et al.

    A shallow embedding of [mbipy/src/normal_integration/fourier/kottler.py].

    The function integrates two gradient fields [gy], [gx] in the frequency
    domain.  Arrays are modelled as n-dimensional arrays with a dtype tag, a
    shape and an indexing function; the array namespace [xp] of the source is
    an interface ([ArrayNamespace]) whose scalar arithmetic and discrete
    Fourier transforms are left to the implementation.  Exceptions and the
    order of the calls to collaborators are modelled by a small monad that
    carries a call log and an error. *)

From Stdlib Require Import String.
From Stdlib Require Import List ZArith QArith Qabs Arith Bool Lia.
Import ListNotations.
Close Scope Q_scope.
Local Open Scope list_scope.

(** ** Exceptions and the call-log monad *)

Inductive Exn : Type :=
| ValueError (msg : string)
| IndexError (msg : string)
| ZeroDivisionError (msg : string)
| OtherError (name msg : string).

(** The calls whose order the properties talk about. *)
Inductive Call : Type :=
| CallResultType
| CallIsdtype
| CallGetDfts
| CallCheckShapes
| CallAntisym
| CallFftfreq (n : nat)
| CallFft2
| CallSetitem
| CallIfft2.

Definition Result (A : Type) : Type := (Exn + A)%type.

(** A computation yields the log of the calls it made and either the
    exception it raised or its value. *)
Definition M (A : Type) : Type := (list Call * Result A)%type.

Definition ret {A : Type} (a : A) : M A := ([], inr a).

Definition raise {A : Type} (e : Exn) : M A := ([], inl e).

Definition bind {A B : Type} (m : M A) (f : A -> M B) : M B :=
  match m with
  | (l, inl e) => (l, inl e)
  | (l, inr a) => let (l', r) := f a in (l ++ l', r)
  end.

(** A logged call to a collaborator that may raise. *)
Definition call {A : Type} (c : Call) (r : Result A) : M A := ([c], r).

(** An unlogged array operation that may raise. *)
Definition lift {A : Type} (r : Result A) : M A := ([], r).

Declare Scope py_scope.
Delimit Scope py_scope with py.
Notation "x <- c ;; k" := (bind c (fun x => k))
  (at level 100, c at next level, right associativity) : py_scope.
Notation "' pat <- c ;; k" := (bind c (fun x => match x with pat => k end))
  (at level 100, pat pattern, c at next level, right associativity) : py_scope.
Local Open Scope py_scope.

(** ** Dtypes *)

Inductive DType : Type :=
| Bool_
| Int8 | Int16 | Int32 | Int64
| UInt8 | UInt16 | UInt32 | UInt64
| Float32 | Float64
| Complex64 | Complex128.

Inductive Kind : Type :=
| KBool | KSignedInteger | KUnsignedInteger | KIntegral
| KRealFloating | KComplexFloating | KNumeric.

(** [xp.isdtype(dtype, kind)]. *)
Definition isdtype (dt : DType) (k : Kind) : bool :=
  match k, dt with
  | KBool, Bool_ => true
  | KSignedInteger, (Int8 | Int16 | Int32 | Int64) => true
  | KUnsignedInteger, (UInt8 | UInt16 | UInt32 | UInt64) => true
  | KIntegral, (Int8 | Int16 | Int32 | Int64
               | UInt8 | UInt16 | UInt32 | UInt64) => true
  | KRealFloating, (Float32 | Float64) => true
  | KComplexFloating, (Complex64 | Complex128) => true
  | KNumeric, Bool_ => false
  | KNumeric, _ => true
  | _, _ => false
  end.

(** The dtype of the product of an array with a Python complex scalar. *)
Definition complex_dtype (dt : DType) : DType :=
  match dt with
  | Float32 | Complex64 => Complex64
  | _ => Complex128
  end.

(** The dtype of the [.real] attribute of an array. *)
Definition real_dtype (dt : DType) : DType :=
  match dt with
  | Complex64 => Float32
  | Complex128 => Float64
  | d => d
  end.

(** ** Shapes, indices and broadcasting *)

Definition Shape : Type := list nat.
Definition Index : Type := list nat.

(** An index is inside a shape when it has one in-range entry per axis. *)
Definition in_range (idx : Index) (s : Shape) : Prop := Forall2 lt idx s.

(** Splits a shape (or an index) of at least two axes into its leading
    part and its last two entries. *)
Fixpoint split_last2 (s : list nat) : option (list nat * nat * nat) :=
  match s with
  | [] => None
  | d :: s' =>
      match s' with
      | [] => None
      | [x] => Some ([], d, x)
      | _ :: _ :: _ =>
          match split_last2 s' with
          | Some (b, y, x) => Some (d :: b, y, x)
          | None => None
          end
      end
  end.

Definition bcast_dim (a b : nat) : option nat :=
  if a =? b then Some a
  else if a =? 1 then Some b
  else if b =? 1 then Some a
  else None.

(** Broadcasting of two shapes given innermost axis first. *)
Fixpoint bcast_rev (s t : list nat) : option (list nat) :=
  match s, t with
  | [], _ => Some t
  | _, [] => Some s
  | a :: s', b :: t' =>
      match bcast_dim a b, bcast_rev s' t' with
      | Some d, Some r => Some (d :: r)
      | _, _ => None
      end
  end.

(** Shapes are aligned at their last axis; an axis of extent one stretches. *)
Definition broadcast_shapes (s t : Shape) : option Shape :=
  option_map (@rev nat) (bcast_rev (rev s) (rev t)).

Definition lastn {A : Type} (n : nat) (l : list A) : list A :=
  skipn (length l - n) l.

(** The index into an operand of shape [s] that an index of the broadcast
    result reads. *)
Definition bindex (s : Shape) (idx : Index) : Index :=
  map (fun di => if fst di =? 1 then 0 else snd di)
      (combine s (lastn (length s) idx)).

(** ** Arrays and the array namespace *)

(** An n-dimensional array: its dtype, its shape and its entries.  Only the
    entries at indices inside the shape are meaningful. *)
Record NDArray (S : Type) : Type := mkArray {
  dtype : DType;
  shape : Shape;
  item : Index -> S
}.
Arguments mkArray {S}.
Arguments dtype {S}.
Arguments shape {S}.
Arguments item {S}.

(** The array namespace [xp] returned by [array_namespace(gy, gx)]: the
    numbers stored in arrays with their arithmetic, the dtype promotion and
    the two-dimensional transforms over the last two axes (which take the
    [workers] argument).  The transforms are modelled on the arguments the
    library accepts, where they return an array: an exception of the
    library for a [workers] value that it rejects is not modelled, so the
    properties below say nothing about what a call raises once it has
    reached the forward transform. *)
Class ArrayNamespace : Type := {
  scalar : Type;
  s_float : Z -> scalar;          (* the float of an integer: 0.0, 1.0, 2.0 *)
  s_1j : scalar;                  (* the imaginary unit 1j *)
  s_pi : scalar;                  (* xp.pi *)
  s_add : scalar -> scalar -> scalar;
  s_mul : scalar -> scalar -> scalar;
  s_div : scalar -> scalar -> scalar;
  s_real : scalar -> scalar;
  s_cast : DType -> scalar -> scalar;
  result_type : DType -> DType -> DType;
  xp_fft2 : option Z -> NDArray scalar -> NDArray scalar;
  xp_ifft2 : option Z -> NDArray scalar -> NDArray scalar
}.

Section Arrays.
Context {xp : ArrayNamespace}.

Definition Array : Type := NDArray scalar.

(** The integer sample positions of [fftfreq(n)]: [0 .. N-1] followed by
    [-(n//2) .. -1], where [N = (n-1)//2 + 1]. *)
Definition fftfreq_int (n k : nat) : Z :=
  let N := (n - 1) / 2 + 1 in
  if k <? N then Z.of_nat k
  else (- Z.of_nat (n / 2) + Z.of_nat (k - N))%Z.

(** One sample frequency: the position times [1.0 / (n * 1.0)]. *)
Definition fftfreq_val (n k : nat) : scalar :=
  s_mul (s_float (fftfreq_int n k))
        (s_div (s_float 1) (s_mul (s_float (Z.of_nat n)) (s_float 1))).

(** [xp.fft.fftfreq(n)]. *)
Definition fftfreq (n : nat) : Result Array :=
  if n =? 0 then inl (ZeroDivisionError "float division by zero")
  else inr (mkArray Float64 [n] (fun idx => fftfreq_val n (hd 0 idx))).

(** [xp.astype(a, dt, copy=False)]. *)
Definition astype (a : Array) (dt : DType) : Array :=
  mkArray dt (shape a) (fun idx => s_cast dt (item a idx)).

(** [a[:, None]]: a new axis of extent one after the first axis. *)
Definition newaxis1 (a : Array) : Result Array :=
  match shape a with
  | [] => inl (IndexError "too many indices for array")
  | d :: r =>
      inr (mkArray (dtype a) (d :: 1 :: r)
             (fun idx => match idx with
                         | i :: _ :: j => item a (i :: j)
                         | _ => item a idx
                         end))
  end.

(** [c * a] for a Python complex number [c]. *)
Definition smul (c : scalar) (a : Array) : Array :=
  mkArray (complex_dtype (dtype a)) (shape a) (fun idx => s_mul c (item a idx)).

(** An elementwise binary operation with broadcasting. *)
Definition elementwise (f : scalar -> scalar -> scalar) (a b : Array)
  : Result Array :=
  match broadcast_shapes (shape a) (shape b) with
  | None => inl (ValueError "operands could not be broadcast together")
  | Some s =>
      inr (mkArray (result_type (dtype a) (dtype b)) s
             (fun idx => f (item a (bindex (shape a) idx))
                           (item b (bindex (shape b) idx))))
  end.

Definition add : Array -> Array -> Result Array := elementwise s_add.
Definition divide : Array -> Array -> Result Array := elementwise s_div.

(** [a.real]. *)
Definition real (a : Array) : Array :=
  mkArray (real_dtype (dtype a)) (shape a) (fun idx => s_real (item a idx)).

(** [a[..., :y, :x]]. *)
Definition crop (a : Array) (y x : nat) : Result Array :=
  match split_last2 (shape a) with
  | None => inl (IndexError "too many indices for array")
  | Some (b, Y, X) =>
      inr (mkArray (dtype a) (b ++ [Nat.min y Y; Nat.min x X]) (item a))
  end.

(** Modelled from the spec: [setitem(a, (..., 0, 0), v, xp)] of
    [mbipy.src.utils], the functional indexed assignment: the result is [a]
    with the entry at index [(0, 0)] of the last two axes of every leading
    index replaced by [v], stored in the dtype of [a]. *)
Definition setitem (a : Array) (v : scalar) : Result Array :=
  match split_last2 (shape a) with
  | None => inl (IndexError "too many indices for array")
  | Some (_, Y, X) =>
      if (Y =? 0) || (X =? 0)
      then inl (IndexError "index 0 is out of bounds for axis with size 0")
      else inr (mkArray (dtype a) (shape a)
                  (fun idx => match split_last2 idx with
                              | Some (_, 0, 0) => s_cast (dtype a) v
                              | _ => item a idx
                              end))
  end.

(** Modelled from the spec: [get_dfts(xp)] of
    [mbipy.src.normal_integration.utils], the forward and inverse
    two-dimensional transforms of the namespace. *)
Definition get_dfts : (option Z -> Array -> Array) * (option Z -> Array -> Array) :=
  (xp_fft2, xp_ifft2).

(** ** The [pad] argument: [str | None] *)

Definition Pad : Type := option string.

(** [pad == s] *)
Definition py_eq (pad : Pad) (s : string) : bool :=
  match pad with
  | Some p => String.eqb p s
  | None => false
  end.

(** [pad is None] *)
Definition is_None (pad : Pad) : bool :=
  match pad with
  | None => true
  | Some _ => false
  end.

(** The truth value of [pad]: [None] and the empty string are false. *)
Definition py_bool (pad : Pad) : bool :=
  match pad with
  | None => false
  | Some p => negb (String.eqb p EmptyString)
  end.

(** [f"{pad}"] *)
Definition py_str (pad : Pad) : string :=
  match pad with
  | None => "None"
  | Some p => p
  end.

End Arrays.

(** ** The function [kottler] *)

Section Kottler.
Context {xp : ArrayNamespace}.

(** [check_shapes(gx, gy)] of [mbipy.src.normal_integration.utils]: the common
    extent [(y, x)] of the last two axes, or an exception. *)
Variable check_shapes : Array -> Array -> Result (nat * nat).

(** [antisym(gy=gy, gx=gx)] of [mbipy.src.normal_integration.padding]: the
    two padded fields [(gy, gx)]. *)
Variable antisym : Array -> Array -> Array * Array.

(** The local variables of [kottler] when it returns.  [f_den] and [f_phase]
    are assigned twice; [f_den_raw] and [f_phase_raw] are their values before
    the call to [setitem]. *)
Record Frame : Type := mkFrame {
  l_dtype : DType;
  l_y : nat;
  l_x : nat;
  l_gy : Array;
  l_gx : Array;
  l_fx : Array;
  l_fy : Array;
  l_f_num : Array;
  l_f_den_raw : Array;
  l_f_den : Array;
  l_f_phase_raw : Array;
  l_f_phase : Array;
  l_return : Array
}.

(** The body of [kottler], statement by statement, up to the frame of its
    local variables.  The namespace returned by [array_namespace(gy, gx)] is
    the ambient [xp]; the calls to the collaborators, to [fftfreq], to the
    transforms and to [setitem] are logged in the order of the source. *)
Definition kottler_frame (gy gx : Array) (pad : Pad) (workers : option Z)
  : M Frame :=
  dtype <- call CallResultType (inr (result_type (dtype gy) (dtype gx))) ;;
  real_floating <- call CallIsdtype (inr (isdtype dtype KRealFloating)) ;;
  if negb real_floating
  then raise (ValueError "Input arrays must be real-valued.")
  else
  ' (fft2, ifft2) <- call CallGetDfts (inr get_dfts) ;;
  ' (y, x) <- call CallCheckShapes (check_shapes gx gy) ;;
  ' (gy, gx) <-
    (if py_eq pad "antisym" then call CallAntisym (inr (antisym gy gx))
     else if is_None pad then ret (gy, gx)
     else raise (ValueError
                   (String.append "Invalid value for pad: " (py_str pad)))) ;;
  fx <- call (CallFftfreq (if py_bool pad then 2 * x else x))
             (fftfreq (if py_bool pad then 2 * x else x)) ;;
  let fx := astype fx dtype in
  fy <- call (CallFftfreq (if py_bool pad then 2 * y else y))
             (fftfreq (if py_bool pad then 2 * y else y)) ;;
  fy <- lift (newaxis1 fy) ;;
  let fy := astype fy dtype in
  g <- lift (add gx (smul s_1j gy)) ;;
  f_num <- call CallFft2 (inr (fft2 workers g)) ;;
  f <- lift (add fx (smul s_1j fy)) ;;
  let f_den_raw := smul (s_mul (s_mul s_1j (s_float 2)) s_pi) f in
  f_den <- call CallSetitem (setitem f_den_raw (s_float 1)) ;;
  f_phase_raw <- lift (divide f_num f_den) ;;
  f_phase <- call CallSetitem (setitem f_phase_raw (s_float 0)) ;;
  r <- call CallIfft2 (inr (ifft2 workers f_phase)) ;;
  out <- lift (crop (real r) y x) ;;
  ret (mkFrame dtype y x gy gx fx fy f_num f_den_raw f_den
               f_phase_raw f_phase out).

(** [kottler(gy, gx, pad, workers)]. *)
Definition kottler (gy gx : Array) (pad : Pad) (workers : option Z)
  : M Array :=
  F <- kottler_frame gy gx pad workers ;;
  ret (l_return F).

(** The body of [kottler] with the two transform lengths chosen by the test
    [pad == "antisym"] in place of the truth value of [pad]; everything else
    is as in [kottler_frame]. *)
Definition kottler_frame_by_equality
  (gy gx : Array) (pad : Pad) (workers : option Z) : M Frame :=
  dtype <- call CallResultType (inr (result_type (dtype gy) (dtype gx))) ;;
  real_floating <- call CallIsdtype (inr (isdtype dtype KRealFloating)) ;;
  if negb real_floating
  then raise (ValueError "Input arrays must be real-valued.")
  else
  ' (fft2, ifft2) <- call CallGetDfts (inr get_dfts) ;;
  ' (y, x) <- call CallCheckShapes (check_shapes gx gy) ;;
  ' (gy, gx) <-
    (if py_eq pad "antisym" then call CallAntisym (inr (antisym gy gx))
     else if is_None pad then ret (gy, gx)
     else raise (ValueError
                   (String.append "Invalid value for pad: " (py_str pad)))) ;;
  fx <- call (CallFftfreq (if py_eq pad "antisym" then 2 * x else x))
             (fftfreq (if py_eq pad "antisym" then 2 * x else x)) ;;
  let fx := astype fx dtype in
  fy <- call (CallFftfreq (if py_eq pad "antisym" then 2 * y else y))
             (fftfreq (if py_eq pad "antisym" then 2 * y else y)) ;;
  fy <- lift (newaxis1 fy) ;;
  let fy := astype fy dtype in
  g <- lift (add gx (smul s_1j gy)) ;;
  f_num <- call CallFft2 (inr (fft2 workers g)) ;;
  f <- lift (add fx (smul s_1j fy)) ;;
  let f_den_raw := smul (s_mul (s_mul s_1j (s_float 2)) s_pi) f in
  f_den <- call CallSetitem (setitem f_den_raw (s_float 1)) ;;
  f_phase_raw <- lift (divide f_num f_den) ;;
  f_phase <- call CallSetitem (setitem f_phase_raw (s_float 0)) ;;
  r <- call CallIfft2 (inr (ifft2 workers f_phase)) ;;
  out <- lift (crop (real r) y x) ;;
  ret (mkFrame dtype y x gy gx fx fy f_num f_den_raw f_den
               f_phase_raw f_phase out).

End Kottler.

(** ** Relating two runs *)

(** Two computations with the same log that raise the same exception or
    return related values. *)
Definition M_rel {A : Type} (P : A -> A -> Prop) (m m' : M A) : Prop :=
  fst m = fst m' /\
  match snd m, snd m' with
  | inl e, inl e' => e = e'
  | inr a, inr a' => P a a'
  | _, _ => False
  end.

(** Two arrays of the same shape. *)
Definition same_shape {S : Type} (a a' : NDArray S) : Prop :=
  shape a = shape a'.

(** ** A reference namespace in exact arithmetic

    Numbers are complex numbers with rational parts; the transforms are the
    two-dimensional discrete Fourier transform computed from its definition.
    The collaborators [check_shapes] and [antisym] are given one
    implementation each.  The namespace serves to run [kottler] on concrete
    fields. *)

Module Reference.

Definition C : Type := (Q * Q)%type.

Definition c_of_Z (z : Z) : C := (inject_Z z, 0%Q).
Definition c_1j : C := (0%Q, 1%Q).
(** The double-precision value of pi. *)
Definition c_pi : C := ((884279719003555 # 281474976710656)%Q, 0%Q).

Definition c_add (a b : C) : C :=
  (Qred (fst a + fst b), Qred (snd a + snd b))%Q.

Definition c_neg (a : C) : C := (Qred (- fst a), Qred (- snd a))%Q.

Definition c_mul (a b : C) : C :=
  (Qred (fst a * fst b - snd a * snd b),
   Qred (fst a * snd b + snd a * fst b))%Q.

Definition c_div (a b : C) : C :=
  let n := (fst b * fst b + snd b * snd b)%Q in
  (Qred ((fst a * fst b + snd a * snd b) / n),
   Qred ((snd a * fst b - fst a * snd b) / n))%Q.

Definition c_real (a : C) : C := (fst a, 0%Q).

Definition c_cast (dt : DType) (a : C) : C :=
  match dt with
  | Complex64 | Complex128 => a
  | Float32 | Float64 => (fst a, 0%Q)
  | Bool_ =>
      (if Qeq_bool (fst a) 0 && Qeq_bool (snd a) 0 then 0%Q else 1%Q, 0%Q)
  | _ => (inject_Z (Z.quot (Qnum (fst a)) (Z.pos (Qden (fst a)))), 0%Q)
  end.

(** Dtype promotion. *)
Inductive DKind : Type := Kb | Ki | Ku | Kf | Kc.

Definition dt_kind (dt : DType) : DKind :=
  match dt with
  | Bool_ => Kb
  | Int8 | Int16 | Int32 | Int64 => Ki
  | UInt8 | UInt16 | UInt32 | UInt64 => Ku
  | Float32 | Float64 => Kf
  | Complex64 | Complex128 => Kc
  end.

(** The width in bits of one (real) component. *)
Definition dt_bits (dt : DType) : nat :=
  match dt with
  | Bool_ | Int8 | UInt8 => 8
  | Int16 | UInt16 => 16
  | Int32 | UInt32 | Float32 | Complex64 => 32
  | Int64 | UInt64 | Float64 | Complex128 => 64
  end.

(** Whether single precision holds the values of the dtype. *)
Definition fits_single (dt : DType) : bool :=
  match dt with
  | Bool_ | Int8 | UInt8 | Int16 | UInt16 | Float32 | Complex64 => true
  | _ => false
  end.

Definition int_of_bits (n : nat) : DType :=
  if n <=? 8 then Int8 else if n <=? 16 then Int16
  else if n <=? 32 then Int32 else Int64.

Definition uint_of_bits (n : nat) : DType :=
  if n <=? 8 then UInt8 else if n <=? 16 then UInt16
  else if n <=? 32 then UInt32 else UInt64.

Definition mixed_int (u i : DType) : DType :=
  if dt_bits u <? dt_bits i then i
  else if dt_bits u <? 64 then int_of_bits (2 * dt_bits u)
  else Float64.

Definition promote (a b : DType) : DType :=
  match dt_kind a, dt_kind b with
  | Kc, _ | _, Kc =>
      if fits_single a && fits_single b then Complex64 else Complex128
  | Kf, _ | _, Kf =>
      if fits_single a && fits_single b then Float32 else Float64
  | Kb, _ => b
  | _, Kb => a
  | Ki, Ki => int_of_bits (Nat.max (dt_bits a) (dt_bits b))
  | Ku, Ku => uint_of_bits (Nat.max (dt_bits a) (dt_bits b))
  | Ku, Ki => mixed_int a b
  | Ki, Ku => mixed_int b a
  end.

(** The root of unity [exp(-2 pi i k / n)] (its conjugate for the inverse
    transform), exact when the angle is a multiple of a quarter turn, that
    is for extents 1, 2 and 4, and taken at the nearest quarter turn for
    other extents. *)
Definition twiddle (inverse : bool) (n k : nat) : C :=
  match ((8 * k + n) / (2 * n)) mod 4 with
  | 0 => (1%Q, 0%Q)
  | 1 => if inverse then (0%Q, 1%Q) else (0%Q, (-1)%Q)
  | 2 => ((-1)%Q, 0%Q)
  | _ => if inverse then (0%Q, (-1)%Q) else (0%Q, 1%Q)
  end.

Definition c_sum (l : list C) : C := fold_left c_add l (0%Q, 0%Q).

(** The discrete Fourier transform over the last two axes. *)
Definition dft2 (inverse : bool) (a : NDArray C) : NDArray C :=
  match split_last2 (shape a) with
  | None => a
  | Some (_, Y, X) =>
      mkArray (complex_dtype (dtype a)) (shape a)
        (fun idx =>
           match split_last2 idx with
           | None => (0%Q, 0%Q)
           | Some (bi, k, l) =>
               let s :=
                 c_sum (map (fun m =>
                   c_sum (map (fun n =>
                     c_mul (item a (bi ++ [m; n]))
                           (c_mul (twiddle inverse Y (m * k))
                                  (twiddle inverse X (n * l))))
                     (seq 0 X)))
                   (seq 0 Y)) in
               if inverse then c_div s (c_of_Z (Z.of_nat (Y * X))) else s
           end)
  end.

#[export] Instance namespace : ArrayNamespace := {|
  scalar := C;
  s_float := c_of_Z;
  s_1j := c_1j;
  s_pi := c_pi;
  s_add := c_add;
  s_mul := c_mul;
  s_div := c_div;
  s_real := c_real;
  s_cast := c_cast;
  result_type := promote;
  xp_fft2 := fun _ => dft2 false;
  xp_ifft2 := fun _ => dft2 true
|}.

(** Modelled from the spec: [check_shapes] returns the common extent of the
    last two axes of the two fields and fails when they differ. *)
Definition check_shapes (a b : NDArray C) : Result (nat * nat) :=
  match split_last2 (shape a), split_last2 (shape b) with
  | Some (_, y, x), Some (_, y', x') =>
      if (y =? y') && (x =? x') then inr (y, x)
      else inl (OtherError "ShapeError" "Input arrays must have the same shape.")
  | _, _ => inl (OtherError "ShapeError" "Input arrays must be at least 2D.")
  end.

Definition reflect (n i : nat) : nat := if i <? n then i else 2 * n - 1 - i.

(** The extension of a field to twice its extent by reflection, negated
    where the reflection is along a negated axis. *)
Definition antisym_field (neg_y neg_x : bool) (g : NDArray C) : NDArray C :=
  match split_last2 (shape g) with
  | None => g
  | Some (b, y, x) =>
      mkArray (dtype g) (b ++ [2 * y; 2 * x])
        (fun idx =>
           match split_last2 idx with
           | None => item g idx
           | Some (bi, k, l) =>
               let v := item g (bi ++ [reflect y k; reflect x l]) in
               if xorb (neg_y && negb (k <? y)) (neg_x && negb (l <? x))
               then c_neg v else v
           end)
  end.

(** Modelled from the spec: [antisym] returns the two fields extended to
    shape [(..., 2y, 2x)] by antisymmetric reflection. *)
Definition antisym (gy gx : NDArray C) : NDArray C * NDArray C :=
  (antisym_field true false gy, antisym_field false true gx).

(** A 2 x 2 example: the gradients of [phi(k, l) = k + 2 l]. *)
Definition gy22 : NDArray C := mkArray Float64 [2; 2] (fun _ => c_of_Z 1).
Definition gx22 : NDArray C := mkArray Float64 [2; 2] (fun _ => c_of_Z 2).

(** The same fields stored as integers. *)
Definition gy22_int : NDArray C := mkArray Int64 [2; 2] (fun _ => c_of_Z 1).
Definition gx22_int : NDArray C := mkArray Int64 [2; 2] (fun _ => c_of_Z 2).

(** Fields of another shape. *)
Definition gx23 : NDArray C := mkArray Float64 [2; 3] (fun _ => c_of_Z 2).
Definition gx23_int : NDArray C := mkArray Int64 [2; 3] (fun _ => c_of_Z 2).

(** Fields with an empty last axis. *)
Definition gy20 : NDArray C := mkArray Float64 [2; 0] (fun _ => c_of_Z 1).
Definition gx20 : NDArray C := mkArray Float64 [2; 0] (fun _ => c_of_Z 2).

(** Batches of one, two and three 2 x 2 fields. *)
Definition gy122 : NDArray C := mkArray Float64 [1; 2; 2] (fun _ => c_of_Z 1).
Definition gy222 : NDArray C := mkArray Float64 [2; 2; 2] (fun _ => c_of_Z 1).
Definition gx322 : NDArray C := mkArray Float64 [3; 2; 2] (fun _ => c_of_Z 2).

(** Another pair of 2 x 2 fields. *)
Definition gy22' : NDArray C :=
  mkArray Float64 [2; 2] (fun idx => c_of_Z (Z.of_nat (hd 0 idx))).
Definition gx22' : NDArray C := mkArray Float64 [2; 2] (fun _ => c_of_Z 5).

Definition run (gy gx : NDArray C) (pad : Pad) (workers : option Z) :=
  kottler check_shapes antisym gy gx pad workers.

(** The shape and the four entries of a returned 2 x 2 array. *)
Definition entries22 (r : M (NDArray C)) : option (Shape * list C) :=
  match r with
  | (_, inr a) => Some (shape a, map (item a) [[0; 0]; [0; 1]; [1; 0]; [1; 1]])
  | (_, inl _) => None
  end.

Definition run_frame (gy gx : NDArray C) (pad : Pad) (workers : option Z) :=
  kottler_frame check_shapes antisym gy gx pad workers.

(** Row and column of an index into a matrix. *)
Definition row (idx : Index) : nat := nth 0 idx 0.
Definition col (idx : Index) : nat := nth 1 idx 0.

(** The field [phi(k, l) = k + 2 l] on a 2 x 2 grid, of which [gy22] and
    [gx22] are the gradients. *)
Definition phi22 : NDArray C :=
  mkArray Float64 [2; 2]
    (fun idx => c_of_Z (Z.of_nat (row idx) + 2 * Z.of_nat (col idx))).

(** [cos(pi k / 2)] and [sin(pi k / 2)]. *)
Definition cos4 (k : nat) : Z :=
  match (k mod 4)%nat with 0 => 1%Z | 2 => (-1)%Z | _ => 0%Z end.
Definition sin4 (k : nat) : Z :=
  match (k mod 4)%nat with 1 => 1%Z | 3 => (-1)%Z | _ => 0%Z end.

(** A 4 x 4 example, periodic over the grid: the field
    [phi(k, l) = 3 + cos(pi k / 2) + 2 sin(pi l / 2)], the field minus its
    mean, and its gradients [gy = -(pi / 2) sin(pi k / 2)] and
    [gx = pi cos(pi l / 2)]. *)
Definition phi44 : NDArray C :=
  mkArray Float64 [4; 4]
    (fun idx => c_of_Z (3 + cos4 (row idx) + 2 * sin4 (col idx))).
Definition phi44_centred : NDArray C :=
  mkArray Float64 [4; 4]
    (fun idx => c_of_Z (cos4 (row idx) + 2 * sin4 (col idx))).
Definition gy44 : NDArray C :=
  mkArray Float64 [4; 4]
    (fun idx => c_mul (c_of_Z (- sin4 (row idx))) (c_div c_pi (c_of_Z 2))).
Definition gx44 : NDArray C :=
  mkArray Float64 [4; 4]
    (fun idx => c_mul (c_of_Z (cos4 (col idx))) c_pi).

(** The real parts of the entries of a [y x x] matrix, row by row. *)
Definition entries (y x : nat) (a : NDArray C) : list Q :=
  flat_map (fun k => map (fun l => fst (item a [k; l])) (seq 0 x)) (seq 0 y).

Definition q_mean (v : list Q) : Q :=
  Qred (fold_right Qplus 0%Q v / inject_Z (Z.of_nat (length v))).

(** The values minus their mean. *)
Definition centred (v : list Q) : list Q :=
  map (fun q => Qred (q - q_mean v)) v.

(** [|r - p| <= atol + rtol * |p|] *)
Definition isclose (rtol atol r p : Q) : bool :=
  Qle_bool (Qabs (r - p)) (atol + rtol * Qabs p).

Definition allclose (rtol atol : Q) (r p : list Q) : bool :=
  (length r =? length p) &&
  forallb (fun rp => isclose rtol atol (fst rp) (snd rp)) (combine r p).

(** The round trip test: whether the returned field minus its mean is the
    field [phi] minus its mean, within the tolerances. *)
Definition round_trip (rtol atol : Q) (y x : nat)
  (r : M (NDArray C)) (phi : NDArray C) : option bool :=
  match r with
  | (_, inr out) =>
      Some (allclose rtol atol (centred (entries y x out))
                               (centred (entries y x phi)))
  | (_, inl _) => None
  end.

(** The shape and the entries of a returned matrix. *)
Definition returned_entries (y x : nat) (r : M (NDArray C))
  : option (Shape * list Q) :=
  match r with
  | (_, inr out) => Some (shape out, entries y x out)
  | (_, inl _) => None
  end.

End Reference.

(** * Properties *)

(** ** The monad *)

Lemma bind_ok {A B : Type} (m : M A) (f : A -> M B) l1 a l2 b :
  m = (l1, inr a) -> f a = (l2, inr b) -> bind m f = (l1 ++ l2, inr b).
Proof. intros -> Hf. unfold bind. now rewrite Hf. Qed.

Lemma bind_inv {A B : Type} (m : M A) (f : A -> M B) l b :
  bind m f = (l, inr b) ->
  exists l1 a l2, m = (l1, inr a) /\ f a = (l2, inr b) /\ l = l1 ++ l2.
Proof.
  destruct m as [l1 [e | a]]; simpl; [discriminate |].
  destruct (f a) as [l2 r] eqn:Hf. intros H. inversion H; subst.
  now exists l1, a, l2.
Qed.

(** ** Shapes and broadcasting *)

Lemma split_last2_app (b : list nat) (y x : nat) :
  split_last2 (b ++ [y; x]) = Some (b, y, x).
Proof.
  induction b as [| d b IH]; [reflexivity |].
  change ((d :: b) ++ [y; x]) with (d :: (b ++ [y; x])).
  cbn [split_last2]. rewrite IH.
  destruct b as [| e [| e' b']]; reflexivity.
Qed.

Lemma split_last2_inv (s b : list nat) (y x : nat) :
  split_last2 s = Some (b, y, x) -> s = b ++ [y; x].
Proof.
  revert b. induction s as [| d s IH]; intros b H; [discriminate |].
  cbn [split_last2] in H.
  destruct s as [| e [| e' s']]; [discriminate | now inversion H |].
  destruct (split_last2 (e :: e' :: s')) as [[[b' y'] x'] |]; [| discriminate].
  inversion H; subst. simpl. f_equal. now apply IH.
Qed.

Lemma bcast_dim_refl (a : nat) : bcast_dim a a = Some a.
Proof. unfold bcast_dim. now rewrite Nat.eqb_refl. Qed.

Lemma bcast_dim_one_r (a : nat) : bcast_dim a 1 = Some a.
Proof.
  unfold bcast_dim. destruct (a =? 1) eqn:E; [| reflexivity].
  apply Nat.eqb_eq in E. now subst.
Qed.

Lemma bcast_rev_nil_r (s : list nat) : bcast_rev s [] = Some s.
Proof. now destruct s. Qed.

Lemma bcast_rev_refl (s : list nat) : bcast_rev s s = Some s.
Proof.
  induction s as [| a s IH]; [reflexivity |].
  simpl. now rewrite bcast_dim_refl, IH.
Qed.

Lemma broadcast_shapes_refl (s : Shape) : broadcast_shapes s s = Some s.
Proof.
  unfold broadcast_shapes. rewrite bcast_rev_refl. simpl.
  now rewrite rev_involutive.
Qed.

(** A matrix broadcasts over a batch of matrices of the same extent. *)
Lemma broadcast_shapes_batch (b : Shape) (Y X : nat) :
  broadcast_shapes (b ++ [Y; X]) [Y; X] = Some (b ++ [Y; X]).
Proof.
  unfold broadcast_shapes. rewrite rev_app_distr. simpl.
  rewrite !bcast_dim_refl, bcast_rev_nil_r. simpl.
  now rewrite rev_involutive, <- !app_assoc.
Qed.

(** A row of [X] entries and a column of [Y] entries give a [Y x X] matrix. *)
Lemma broadcast_shapes_row_col (Y X : nat) :
  broadcast_shapes [X] [Y; 1] = Some [Y; X].
Proof.
  unfold broadcast_shapes. simpl. now rewrite bcast_dim_one_r.
Qed.

Lemma lastn_app {A : Type} (pre idx : list A) :
  lastn (length idx) (pre ++ idx) = idx.
Proof.
  unfold lastn. rewrite length_app.
  replace (length pre + length idx - length idx) with (length pre) by lia.
  rewrite skipn_app, skipn_all, Nat.sub_diag. reflexivity.
Qed.

Lemma in_range_length (idx : Index) (s : Shape) :
  in_range idx s -> length idx = length s.
Proof. intros H. induction H; simpl; congruence. Qed.

Lemma in_range_app (i1 i2 : Index) (s1 s2 : Shape) :
  in_range i1 s1 -> in_range i2 s2 -> in_range (i1 ++ i2) (s1 ++ s2).
Proof. apply Forall2_app. Qed.

Lemma in_range_2 (k l Y X : nat) : k < Y -> l < X -> in_range [k; l] [Y; X].
Proof. intros. repeat constructor; assumption. Qed.

Lemma in_range_app_inv (idx : Index) (b : Shape) (y x : nat) :
  in_range idx (b ++ [y; x]) ->
  exists bi k l, idx = bi ++ [k; l] /\ in_range bi b /\ k < y /\ l < x.
Proof.
  unfold in_range. intros H.
  apply Forall2_app_inv_r in H. destruct H as (bi & t & Hbi & Ht & ->).
  inversion Ht as [| k y' t' s' Hk Ht' ]; subst.
  inversion Ht' as [| l x' t'' s'' Hl Ht'']; subst.
  inversion Ht''; subst.
  exists bi, k, l. auto.
Qed.

(** Inside the shape of an operand the broadcast index is the index. *)
Lemma bindex_in_range (s : Shape) (pre idx : Index) :
  in_range idx s -> bindex s (pre ++ idx) = idx.
Proof.
  intros H. unfold bindex.
  rewrite <- (in_range_length _ _ H), lastn_app.
  induction H as [| i d idx s Hlt _ IH]; [reflexivity |].
  simpl. rewrite IH. f_equal.
  destruct (d =? 1) eqn:E; [| reflexivity].
  apply Nat.eqb_eq in E. lia.
Qed.

Lemma bindex_in_range_whole (s : Shape) (idx : Index) :
  in_range idx s -> bindex s idx = idx.
Proof. apply (bindex_in_range s []). Qed.

(** A column read at row [k] of the broadcast matrix. *)
Lemma bindex_col (Y k l : nat) : k < Y -> bindex [Y; 1] [k; l] = [k; 0].
Proof.
  intros H. unfold bindex, lastn. simpl.
  destruct (Y =? 1) eqn:E; [| reflexivity].
  apply Nat.eqb_eq in E. f_equal. lia.
Qed.

Lemma bindex_row (X k l : nat) : l < X -> bindex [X] [k; l] = [l].
Proof.
  intros H. apply (bindex_in_range [X] [k] [l]). now repeat constructor.
Qed.

(** ** Array operations *)

Section ArrayFacts.
Context {xp : ArrayNamespace}.

Lemma fftfreq_ok (n : nat) :
  0 < n ->
  fftfreq n = inr (mkArray Float64 [n] (fun idx => fftfreq_val n (hd 0 idx))).
Proof.
  intros H. unfold fftfreq. destruct (n =? 0) eqn:E; [| reflexivity].
  apply Nat.eqb_eq in E. lia.
Qed.

Lemma fftfreq_inv (n : nat) (a : Array) :
  fftfreq n = inr a ->
  0 < n /\ a = mkArray Float64 [n] (fun idx => fftfreq_val n (hd 0 idx)).
Proof.
  unfold fftfreq. destruct (n =? 0) eqn:E; [discriminate |].
  apply Nat.eqb_neq in E. intros H. inversion H. split; [lia | reflexivity].
Qed.

(** The sample positions in the usual closed form: the non-negative
    frequencies first, then the negative ones. *)
Lemma fftfreq_int_standard (n k : nat) :
  k < n ->
  fftfreq_int n k =
  if 2 * k <? n then Z.of_nat k else (Z.of_nat k - Z.of_nat n)%Z.
Proof.
  intros Hk. unfold fftfreq_int. cbv zeta.
  assert (HN : (n - 1) / 2 + 1 = n / 2 + n mod 2).
  { pose proof (Nat.div_mod_eq n 2). pose proof (Nat.div_mod_eq (n - 1) 2).
    pose proof (Nat.mod_upper_bound n 2). pose proof (Nat.mod_upper_bound (n - 1) 2).
    lia. }
  rewrite HN.
  pose proof (Nat.div_mod_eq n 2) as Hn.
  pose proof (Nat.mod_upper_bound n 2) as Hm.
  destruct (k <? n / 2 + n mod 2) eqn:E1; destruct (2 * k <? n) eqn:E2;
    try reflexivity.
  - apply Nat.ltb_lt in E1. apply Nat.ltb_ge in E2. lia.
  - apply Nat.ltb_ge in E1. apply Nat.ltb_lt in E2. lia.
  - apply Nat.ltb_ge in E1. lia.
Qed.

Lemma fftfreq_int_zero (n : nat) : 0 < n -> fftfreq_int n 0 = 0%Z.
Proof.
  intros H. rewrite fftfreq_int_standard by lia.
  destruct (2 * 0 <? n) eqn:E; [reflexivity |].
  apply Nat.ltb_ge in E. lia.
Qed.

(** A sample frequency written out: the sample position as a float, times
    [1.0 / (n * 1.0)]. *)
Lemma fftfreq_val_explicit (n k : nat) :
  k < n ->
  fftfreq_val n k =
  s_mul (s_float (if 2 * k <? n then Z.of_nat k
                  else (Z.of_nat k - Z.of_nat n)%Z))
        (s_div (s_float 1) (s_mul (s_float (Z.of_nat n)) (s_float 1))).
Proof.
  intros Hk. unfold fftfreq_val. now rewrite (fftfreq_int_standard n k Hk).
Qed.

Lemma fftfreq_val_first (n : nat) :
  0 < n ->
  fftfreq_val n 0 =
  s_mul (s_float 0)
        (s_div (s_float 1) (s_mul (s_float (Z.of_nat n)) (s_float 1))).
Proof.
  intros Hn. unfold fftfreq_val. now rewrite (fftfreq_int_zero n Hn).
Qed.

Lemma newaxis1_vector (dt : DType) (n : nat) (f : Index -> scalar) :
  newaxis1 (mkArray dt [n] f) =
  inr (mkArray dt [n; 1]
         (fun idx => match idx with
                     | i :: _ :: j => f (i :: j)
                     | _ => f idx
                     end)).
Proof. reflexivity. Qed.

Lemma elementwise_inv (f : scalar -> scalar -> scalar) (a b c : Array) :
  elementwise f a b = inr c ->
  exists s, broadcast_shapes (shape a) (shape b) = Some s /\
            c = mkArray (result_type (dtype a) (dtype b)) s
                  (fun idx => f (item a (bindex (shape a) idx))
                                (item b (bindex (shape b) idx))).
Proof.
  unfold elementwise.
  destruct (broadcast_shapes (shape a) (shape b)) as [s |]; [| discriminate].
  intros H. inversion H. now exists s.
Qed.

Lemma elementwise_ok (f : scalar -> scalar -> scalar) (a b : Array) (s : Shape) :
  broadcast_shapes (shape a) (shape b) = Some s ->
  elementwise f a b =
  inr (mkArray (result_type (dtype a) (dtype b)) s
         (fun idx => f (item a (bindex (shape a) idx))
                       (item b (bindex (shape b) idx)))).
Proof. intros H. unfold elementwise. now rewrite H. Qed.

Lemma setitem_inv (a a' : Array) (v : scalar) :
  setitem a v = inr a' ->
  (exists b Y X, shape a = b ++ [Y; X] /\ 0 < Y /\ 0 < X) /\
  a' = mkArray (dtype a) (shape a)
         (fun idx => match split_last2 idx with
                     | Some (_, 0, 0) => s_cast (dtype a) v
                     | _ => item a idx
                     end).
Proof.
  unfold setitem.
  destruct (split_last2 (shape a)) as [[[b Y] X] |] eqn:E; [| discriminate].
  destruct ((Y =? 0) || (X =? 0)) eqn:E0; [discriminate |].
  apply orb_false_elim in E0. destruct E0 as [EY EX].
  apply Nat.eqb_neq in EY. apply Nat.eqb_neq in EX.
  intros H. inversion H. split; [| reflexivity].
  exists b, Y, X. split; [now apply split_last2_inv | lia].
Qed.

Lemma setitem_ok (a : Array) (v : scalar) (b : Shape) (Y X : nat) :
  shape a = b ++ [Y; X] -> 0 < Y -> 0 < X ->
  setitem a v =
  inr (mkArray (dtype a) (shape a)
         (fun idx => match split_last2 idx with
                     | Some (_, 0, 0) => s_cast (dtype a) v
                     | _ => item a idx
                     end)).
Proof.
  intros Hs HY HX. unfold setitem. rewrite Hs, split_last2_app.
  destruct (Y =? 0) eqn:EY; [apply Nat.eqb_eq in EY; lia |].
  destruct (X =? 0) eqn:EX; [apply Nat.eqb_eq in EX; lia |].
  reflexivity.
Qed.

(** The entry written by [setitem], at every leading index. *)
Lemma setitem_item_zero (a a' : Array) (v : scalar) (bi : Index) :
  setitem a v = inr a' -> item a' (bi ++ [0; 0]) = s_cast (dtype a) v.
Proof.
  intros H. apply setitem_inv in H. destruct H as [_ ->].
  simpl. now rewrite split_last2_app.
Qed.

(** The entries [setitem] leaves alone. *)
Lemma setitem_item_other (a a' : Array) (v : scalar) (bi : Index) (k l : nat) :
  setitem a v = inr a' -> (k, l) <> (0, 0) ->
  item a' (bi ++ [k; l]) = item a (bi ++ [k; l]).
Proof.
  intros H Hkl. apply setitem_inv in H. destruct H as [_ ->].
  simpl. rewrite split_last2_app.
  destruct k; [destruct l; [congruence | reflexivity] | reflexivity].
Qed.

Lemma setitem_shape (a a' : Array) (v : scalar) :
  setitem a v = inr a' -> shape a' = shape a.
Proof. intros H. apply setitem_inv in H. now destruct H as [_ ->]. Qed.

Lemma crop_ok (a : Array) (b : Shape) (Y X y x : nat) :
  shape a = b ++ [Y; X] ->
  crop a y x = inr (mkArray (dtype a) (b ++ [Nat.min y Y; Nat.min x X]) (item a)).
Proof. intros H. unfold crop. now rewrite H, split_last2_app. Qed.

Lemma crop_inv (a r : Array) (y x : nat) :
  crop a y x = inr r ->
  exists b Y X, shape a = b ++ [Y; X] /\
    r = mkArray (dtype a) (b ++ [Nat.min y Y; Nat.min x X]) (item a).
Proof.
  unfold crop.
  destruct (split_last2 (shape a)) as [[[b Y] X] |] eqn:E; [| discriminate].
  intros H. inversion H. exists b, Y, X.
  split; [now apply split_last2_inv | reflexivity].
Qed.

End ArrayFacts.

(** ** Running the body of [kottler] *)

Lemma inr_eq {A B : Type} (x y : B) : @inr A B x = inr y -> x = y.
Proof. intros H. now inversion H. Qed.

Lemma bind_call_inv {A B : Type} (c : Call) (r : Result A) (f : A -> M B) l b :
  bind (call c r) f = (l, inr b) ->
  exists a l2, r = inr a /\ f a = (l2, inr b) /\ l = c :: l2.
Proof.
  intros H. apply bind_inv in H. destruct H as (l1 & a & l2 & Hm & Hf & ->).
  unfold call in Hm. injection Hm as <- ->. now exists a, l2.
Qed.

Lemma bind_lift_inv {A B : Type} (r : Result A) (f : A -> M B) l b :
  bind (lift r) f = (l, inr b) ->
  exists a, r = inr a /\ f a = (l, inr b).
Proof.
  intros H. apply bind_inv in H. destruct H as (l1 & a & l2 & Hm & Hf & ->).
  unfold lift in Hm. injection Hm as <- ->. now exists a.
Qed.

Lemma bind_call_ok {A B : Type} (c : Call) (a : A) (f : A -> M B) l b :
  f a = (l, inr b) -> bind (call c (inr a)) f = (c :: l, inr b).
Proof. intros H. unfold bind, call. now rewrite H. Qed.

Lemma bind_lift_ok {A B : Type} (a : A) (f : A -> M B) l b :
  f a = (l, inr b) -> bind (lift (inr a)) f = (l, inr b).
Proof. intros H. unfold bind, lift. now rewrite H. Qed.

Lemma bind_call_pure {A B : Type} (c : Call) (a : A) (f : A -> M B) :
  bind (call c (inr a)) f = (c :: fst (f a), snd (f a)).
Proof. unfold bind, call. now destruct (f a). Qed.

Lemma bind_call_error {A B : Type} (c : Call) (e : Exn) (f : A -> M B) :
  bind (call c (inl e)) f = ([c], inl e).
Proof. reflexivity. Qed.

Lemma bind_raise_now {A B : Type} (e : Exn) (f : A -> M B) :
  bind (raise e) f = ([], inl e).
Proof. reflexivity. Qed.

Lemma bind_ext {A B : Type} (m : M A) (f g : A -> M B) :
  (forall a, f a = g a) -> bind m f = bind m g.
Proof. intros H. destruct m as [l [e | a]]; simpl; [reflexivity | now rewrite H]. Qed.

Lemma py_eq_true (pad : Pad) (s : string) : py_eq pad s = true -> pad = Some s.
Proof.
  destruct pad as [p |]; simpl; [| discriminate].
  intros H. apply String.eqb_eq in H. now subst.
Qed.

Lemma py_eq_refl (s : string) : py_eq (Some s) s = true.
Proof. simpl. apply String.eqb_refl. Qed.

Lemma py_eq_false (p s : string) : p <> s -> py_eq (Some p) s = false.
Proof. intros H. simpl. now apply String.eqb_neq. Qed.

Tactic Notation "call_step" hyp(H) ident(a) ident(Hm) :=
  apply bind_call_inv in H;
  let l2 := fresh "l" in let Hl := fresh "Hl" in
  destruct H as (a & l2 & Hm & H & Hl); subst.

Tactic Notation "lift_step" hyp(H) ident(a) ident(Hm) :=
  apply bind_lift_inv in H; destruct H as (a & Hm & H).

Tactic Notation "pure_step" hyp(H) :=
  apply bind_call_inv in H;
  let a := fresh "a" in let Hm := fresh "Hm" in
  let l2 := fresh "l" in let Hl := fresh "Hl" in
  destruct H as (a & l2 & Hm & H & Hl); apply inr_eq in Hm; subst.

Section KottlerFacts.
Context {xp : ArrayNamespace}.
Variable check_shapes : Array -> Array -> Result (nat * nat).
Variable antisym : Array -> Array -> Array * Array.

Local Notation "'run_frame'" := (kottler_frame check_shapes antisym).
Local Notation "'run'" := (kottler check_shapes antisym).

(** *** The three exits by exception *)

Lemma kottler_frame_dtype_error gy gx pad w :
  isdtype (result_type (dtype gy) (dtype gx)) KRealFloating = false ->
  run_frame gy gx pad w =
  ([CallResultType; CallIsdtype],
   inl (ValueError "Input arrays must be real-valued.")).
Proof.
  intros H. unfold kottler_frame.
  rewrite !bind_call_pure, H. reflexivity.
Qed.

Lemma kottler_frame_shape_error gy gx pad w e :
  isdtype (result_type (dtype gy) (dtype gx)) KRealFloating = true ->
  check_shapes gx gy = inl e ->
  run_frame gy gx pad w =
  ([CallResultType; CallIsdtype; CallGetDfts; CallCheckShapes], inl e).
Proof.
  intros H He. unfold kottler_frame.
  rewrite !bind_call_pure, H. cbn [negb].
  rewrite ?bind_call_pure. unfold get_dfts. cbv beta iota.
  rewrite He, bind_call_error. reflexivity.
Qed.

Lemma kottler_frame_pad_error gy gx p w y x :
  isdtype (result_type (dtype gy) (dtype gx)) KRealFloating = true ->
  check_shapes gx gy = inr (y, x) ->
  p <> "antisym"%string ->
  run_frame gy gx (Some p) w =
  ([CallResultType; CallIsdtype; CallGetDfts; CallCheckShapes],
   inl (ValueError (String.append "Invalid value for pad: " p))).
Proof.
  intros H Hs Hp. unfold kottler_frame.
  rewrite !bind_call_pure, H. cbn [negb].
  rewrite ?bind_call_pure. unfold get_dfts. cbv beta iota.
  rewrite Hs, bind_call_pure. cbv beta iota.
  rewrite (py_eq_false _ _ Hp). cbn [is_None py_str].
  rewrite bind_raise_now. reflexivity.
Qed.

Lemma kottler_of_frame_error gy gx pad w l e :
  run_frame gy gx pad w = (l, inl e) -> run gy gx pad w = (l, inl e).
Proof. intros H. unfold kottler. now rewrite H. Qed.

Lemma kottler_of_frame_ok gy gx pad w l F :
  run_frame gy gx pad w = (l, inr F) ->
  run gy gx pad w = (l, inr (l_return F)).
Proof.
  intros H. unfold kottler. rewrite H. simpl.
  now rewrite app_nil_r.
Qed.

(** *** The pad dispatch *)

Lemma pad_dispatch_inv (gy gx gy' gx' : Array) (pad : Pad) l :
  (if py_eq pad "antisym" then call CallAntisym (inr (antisym gy gx))
   else if is_None pad then ret (gy, gx)
   else raise (ValueError
                 (String.append "Invalid value for pad: " (py_str pad)))) =
  (l, inr (gy', gx')) ->
  (pad = Some "antisym"%string /\ l = [CallAntisym] /\
   (gy', gx') = antisym gy gx) \/
  (pad = None /\ l = [] /\ (gy', gx') = (gy, gx)).
Proof.
  destruct (py_eq pad "antisym") eqn:E.
  - apply py_eq_true in E. unfold call. intros H. left.
    injection H as <- H. now rewrite H.
  - destruct pad as [p |]; simpl; [discriminate |].
    unfold ret. intros H. right. injection H as <- <- <-. auto.
Qed.

(** *** A run that returns: every assignment of the body, in order *)

Lemma kottler_frame_inv gy gx pad w log F :
  run_frame gy gx pad w = (log, inr F) ->
  exists g f,
    log = [CallResultType; CallIsdtype; CallGetDfts; CallCheckShapes]
          ++ (if py_eq pad "antisym" then [CallAntisym] else [])
          ++ [CallFftfreq (if py_bool pad then 2 * l_x F else l_x F);
              CallFftfreq (if py_bool pad then 2 * l_y F else l_y F);
              CallFft2; CallSetitem; CallSetitem; CallIfft2] /\
    l_dtype F = result_type (dtype gy) (dtype gx) /\
    isdtype (l_dtype F) KRealFloating = true /\
    check_shapes gx gy = inr (l_y F, l_x F) /\
    (pad = None \/ pad = Some "antisym"%string) /\
    (l_gy F, l_gx F) =
      (if py_eq pad "antisym" then antisym gy gx else (gy, gx)) /\
    fftfreq (if py_bool pad then 2 * l_x F else l_x F) =
      inr (mkArray Float64 [if py_bool pad then 2 * l_x F else l_x F]
             (fun idx => fftfreq_val
                           (if py_bool pad then 2 * l_x F else l_x F)
                           (hd 0 idx))) /\
    0 < (if py_bool pad then 2 * l_x F else l_x F) /\
    0 < (if py_bool pad then 2 * l_y F else l_y F) /\
    l_fx F =
      astype (mkArray Float64 [if py_bool pad then 2 * l_x F else l_x F]
                (fun idx => fftfreq_val
                              (if py_bool pad then 2 * l_x F else l_x F)
                              (hd 0 idx)))
             (l_dtype F) /\
    l_fy F =
      astype (mkArray Float64 [if py_bool pad then 2 * l_y F else l_y F; 1]
                (fun idx =>
                   match idx with
                   | i :: _ :: j =>
                       fftfreq_val (if py_bool pad then 2 * l_y F else l_y F)
                                   (hd 0 (i :: j))
                   | _ =>
                       fftfreq_val (if py_bool pad then 2 * l_y F else l_y F)
                                   (hd 0 idx)
                   end))
             (l_dtype F) /\
    add (l_gx F) (smul s_1j (l_gy F)) = inr g /\
    l_f_num F = xp_fft2 w g /\
    add (l_fx F) (smul s_1j (l_fy F)) = inr f /\
    l_f_den_raw F = smul (s_mul (s_mul s_1j (s_float 2)) s_pi) f /\
    setitem (l_f_den_raw F) (s_float 1) = inr (l_f_den F) /\
    divide (l_f_num F) (l_f_den F) = inr (l_f_phase_raw F) /\
    setitem (l_f_phase_raw F) (s_float 0) = inr (l_f_phase F) /\
    crop (real (xp_ifft2 w (l_f_phase F))) (l_y F) (l_x F) = inr (l_return F).
Proof.
  intros H. unfold kottler_frame in H.
  pure_step H. pure_step H.
  destruct (isdtype (result_type (dtype gy) (dtype gx)) KRealFloating) eqn:Hdt;
    simpl negb in H; cbv iota in H; [| unfold raise in H; discriminate].
  pure_step H. unfold get_dfts in H.
  call_step H yx Hcs. destruct yx as [y x].
  apply bind_inv in H. destruct H as (l3 & [gy' gx'] & l4 & Hpad & H & ->).
  call_step H fx0 Hfx.
  call_step H fy0 Hfy.
  lift_step H fy1 Hfy1.
  lift_step H g Hg.
  pure_step H.
  lift_step H f Hf.
  call_step H f_den Hden.
  lift_step H f_phase_raw Hdiv.
  call_step H f_phase Hphase.
  pure_step H.
  lift_step H out Hout.
  unfold ret in H. injection H as <- <-. cbn [l_dtype l_y l_x l_gy l_gx l_fx
    l_fy l_f_num l_f_den_raw l_f_den l_f_phase_raw l_f_phase l_return].
  pose proof (fftfreq_inv _ _ Hfx) as [Hnx Efx].
  pose proof (fftfreq_inv _ _ Hfy) as [Hny Efy].
  subst fx0 fy0. rewrite newaxis1_vector in Hfy1. apply inr_eq in Hfy1.
  subst fy1.
  exists g, f.
  apply pad_dispatch_inv in Hpad.
  repeat split; try assumption; try reflexivity.
  - destruct Hpad as [(-> & -> & _) | (-> & -> & _)]; reflexivity.
  - destruct Hpad as [(-> & _) | (-> & _)]; auto.
  - destruct Hpad as [(-> & _ & E) | (-> & _ & E)]; rewrite E; reflexivity.
Qed.

End KottlerFacts.

Lemma bcast_rev_app (t s1 s2 r : list nat) :
  bcast_rev (t ++ s1) (t ++ s2) = Some r -> exists r', r = t ++ r'.
Proof.
  revert r. induction t as [| a t IH]; intros r H.
  - now exists r.
  - simpl in H. rewrite bcast_dim_refl in H.
    destruct (bcast_rev (t ++ s1) (t ++ s2)) as [r0 |] eqn:E; [| discriminate].
    destruct (IH r0 eq_refl) as [r' ->]. inversion H. now exists r'.
Qed.

(** Operands with the same last axes keep them in the broadcast shape. *)
Lemma broadcast_shapes_app (s1 s2 t r : Shape) :
  broadcast_shapes (s1 ++ t) (s2 ++ t) = Some r -> exists r', r = r' ++ t.
Proof.
  unfold broadcast_shapes. rewrite !rev_app_distr.
  destruct (bcast_rev (rev t ++ rev s1) (rev t ++ rev s2)) as [r0 |] eqn:E;
    [| discriminate].
  apply bcast_rev_app in E. destruct E as [r' ->].
  simpl. intros H. inversion H. exists (rev r').
  now rewrite rev_app_distr, rev_involutive.
Qed.

Section KottlerRuns.
Context {xp : ArrayNamespace}.
Variable check_shapes : Array -> Array -> Result (nat * nat).
Variable antisym : Array -> Array -> Array * Array.

Local Notation "'run_frame'" := (kottler_frame check_shapes antisym).
Local Notation "'run'" := (kottler check_shapes antisym).

(** The transforms keep the shape of their argument. *)
Hypothesis fft2_shape : forall w a, shape (xp_fft2 w a) = shape a.
Hypothesis ifft2_shape : forall w a, shape (xp_ifft2 w a) = shape a.

(** [antisym] doubles the extent of the last two axes of both fields. *)
Hypothesis antisym_shape : forall gy gx by_ bx y x,
  shape gy = by_ ++ [y; x] -> shape gx = bx ++ [y; x] ->
  shape (fst (antisym gy gx)) = by_ ++ [2 * y; 2 * x] /\
  shape (snd (antisym gy gx)) = bx ++ [2 * y; 2 * x].

(** When [check_shapes] returns [(y, x)], both fields end in these axes. *)
Hypothesis check_shapes_sound : forall a b y x,
  check_shapes a b = inr (y, x) ->
  exists sa sb, shape a = sa ++ [y; x] /\ shape b = sb ++ [y; x].

(** The fields after the pad dispatch of a run that returns. *)
Lemma padded_shapes gy gx pad w log F :
  run_frame gy gx pad w = (log, inr F) ->
  exists by_ bx,
    shape (l_gy F) =
      by_ ++ [if py_eq pad "antisym" then 2 * l_y F else l_y F;
              if py_eq pad "antisym" then 2 * l_x F else l_x F] /\
    shape (l_gx F) =
      bx ++ [if py_eq pad "antisym" then 2 * l_y F else l_y F;
             if py_eq pad "antisym" then 2 * l_x F else l_x F].
Proof.
  intros H. apply kottler_frame_inv in H.
  destruct H as (g & f & _ & _ & _ & Hcs & Hpad & Hg & _).
  apply check_shapes_sound in Hcs. destruct Hcs as (bx & by_ & Hx & Hy).
  exists by_, bx.
  destruct Hpad as [-> | ->]; cbn [py_eq] in *.
  - inversion Hg; subst. auto.
  - rewrite String.eqb_refl in *.
    destruct (antisym_shape gy gx by_ bx _ _ Hy Hx) as [H1 H2].
    rewrite <- Hg in H1, H2. auto.
Qed.

(** The truth value of [pad] doubles the lengths exactly when [pad] is
    ["antisym"], in a run that got past the pad dispatch. *)
Lemma py_bool_valid (pad : Pad) :
  pad = None \/ pad = Some "antisym"%string ->
  py_bool pad = py_eq pad "antisym".
Proof. intros [-> | ->]; reflexivity. Qed.

(** A run on valid fields returns. *)
Lemma kottler_frame_total gy gx pad w b y x :
  isdtype (result_type (dtype gy) (dtype gx)) KRealFloating = true ->
  shape gy = b ++ [y; x] -> shape gx = b ++ [y; x] ->
  check_shapes gx gy = inr (y, x) ->
  0 < y -> 0 < x ->
  pad = None \/ pad = Some "antisym"%string ->
  exists log F, run_frame gy gx pad w = (log, inr F).
Proof.
  intros Hdt Hsy Hsx Hcs Hy Hx Hpad.
  assert (Hp : exists gy' gx' Y X l,
    (if py_eq pad "antisym" then call CallAntisym (inr (antisym gy gx))
     else if is_None pad then ret (gy, gx)
     else raise (ValueError
                   (String.append "Invalid value for pad: " (py_str pad)))) =
    (l, inr (gy', gx')) /\
    shape gy' = b ++ [Y; X] /\ shape gx' = b ++ [Y; X] /\
    (if py_bool pad then 2 * y else y) = Y /\
    (if py_bool pad then 2 * x else x) = X /\ 0 < Y /\ 0 < X).
  { destruct Hpad as [-> | ->].
    - exists gy, gx, y, x, []. cbn. auto 10.
    - destruct (antisym_shape gy gx b b y x Hsy Hsx) as [H1 H2].
      exists (fst (antisym gy gx)), (snd (antisym gy gx)), (2 * y), (2 * x),
        [CallAntisym].
      rewrite py_eq_refl. unfold call. rewrite <- surjective_pairing.
      change (py_bool (Some "antisym"%string)) with true. cbv iota.
      repeat split; auto; lia. }
  destruct Hp as (gy' & gx' & Y & X & l & Hd & Hgy & Hgx & EY & EX & HY & HX).
  unfold kottler_frame.
  eexists. eexists.
  eapply bind_call_ok. eapply bind_call_ok. rewrite Hdt. cbn [negb].
  eapply bind_call_ok. unfold get_dfts.
  rewrite Hcs. eapply bind_call_ok.
  eapply bind_ok; [exact Hd |]. cbv beta iota.
  rewrite EX, EY.
  rewrite (fftfreq_ok X HX). eapply bind_call_ok.
  rewrite (fftfreq_ok Y HY). eapply bind_call_ok.
  rewrite newaxis1_vector. eapply bind_lift_ok.
  unfold add at 1.
  rewrite (elementwise_ok _ _ _ (b ++ [Y; X]))
    by (cbn [shape smul]; rewrite Hgx, Hgy; apply broadcast_shapes_refl).
  eapply bind_lift_ok. eapply bind_call_ok.
  unfold add.
  rewrite (elementwise_ok _ _ _ [Y; X]) by apply broadcast_shapes_row_col.
  eapply bind_lift_ok.
  rewrite (setitem_ok _ _ [] Y X) by (reflexivity || assumption).
  eapply bind_call_ok.
  unfold divide.
  rewrite (elementwise_ok _ _ _ (b ++ [Y; X]))
    by (cbn [shape]; rewrite fft2_shape; apply broadcast_shapes_batch).
  eapply bind_lift_ok.
  rewrite (setitem_ok _ _ b Y X) by (reflexivity || assumption).
  eapply bind_call_ok. eapply bind_call_ok.
  rewrite (crop_ok _ b Y X) by (cbn [shape real]; apply ifft2_shape).
  eapply bind_lift_ok. reflexivity.
Qed.

(** The entries of the spectral kernel of a run that returns, when both
    fields have the shape [b ++ [Y; X]] after the pad dispatch and the grids
    have the lengths [X] and [Y]. *)
Lemma kernel_entries gy gx pad w log F b Y X :
  run_frame gy gx pad w = (log, inr F) ->
  shape (l_gy F) = b ++ [Y; X] -> shape (l_gx F) = b ++ [Y; X] ->
  (if py_bool pad then 2 * l_y F else l_y F) = Y ->
  (if py_bool pad then 2 * l_x F else l_x F) = X ->
  (exists g, l_f_num F = xp_fft2 w g /\ shape g = b ++ [Y; X] /\
     forall idx, in_range idx (b ++ [Y; X]) ->
       item g idx = s_add (item (l_gx F) idx)
                          (s_mul s_1j (item (l_gy F) idx))) /\
  shape (l_f_den_raw F) = [Y; X] /\
  (forall k l, k < Y -> l < X ->
     item (l_f_den_raw F) [k; l] =
     s_mul (s_mul (s_mul s_1j (s_float 2)) s_pi)
           (s_add (item (l_fx F) [l]) (s_mul s_1j (item (l_fy F) [k; 0])))) /\
  shape (l_f_phase_raw F) = b ++ [Y; X] /\
  (forall bi k l, in_range bi b -> k < Y -> l < X ->
     item (l_f_phase_raw F) (bi ++ [k; l]) =
     s_div (item (l_f_num F) (bi ++ [k; l])) (item (l_f_den F) [k; l])).
Proof.
  intros H Hgy Hgx EY EX. apply kottler_frame_inv in H.
  destruct H as (g & f & _ & _ & _ & _ & _ & _ & _ & _ & _ & Hfx & Hfy & Hg
                 & Hnum & Hf & Hraw & Hden & Hdiv & _).
  rewrite EX in Hfx. rewrite EY in Hfy.
  apply elementwise_inv in Hg. destruct Hg as (sg & Bg & Eg).
  cbn [shape smul] in Bg. rewrite Hgx, Hgy, broadcast_shapes_refl in Bg.
  injection Bg as <-.
  apply elementwise_inv in Hf. destruct Hf as (sf & Bf & Ef).
  rewrite Hfx, Hfy in Bf. cbn [shape smul astype] in Bf.
  rewrite broadcast_shapes_row_col in Bf. injection Bf as <-.
  assert (Sraw : shape (l_f_den_raw F) = [Y; X]) by (now rewrite Hraw, Ef).
  assert (Snum : shape (l_f_num F) = b ++ [Y; X])
    by (now rewrite Hnum, fft2_shape, Eg).
  pose proof (setitem_shape _ _ _ Hden) as Sden. rewrite Sraw in Sden.
  apply elementwise_inv in Hdiv. destruct Hdiv as (sp & Bp & Ep).
  rewrite Snum, Sden, broadcast_shapes_batch in Bp.
  injection Bp as <-.
  split; [| split; [| split; [| split]]].
  - exists g. split; [assumption |]. split; [now rewrite Eg |].
    intros idx Hidx. rewrite Eg. cbn [item shape smul].
    rewrite Hgx, Hgy. now rewrite (bindex_in_range_whole _ _ Hidx).
  - assumption.
  - intros k l Hk Hl. rewrite Hraw, Ef. cbn [item smul shape].
    rewrite Hfx, Hfy. cbn [shape astype].
    now rewrite (bindex_row X k l Hl), (bindex_col Y k l Hk).
  - now rewrite Ep.
  - intros bi k l Hbi Hk Hl. rewrite Ep. cbn [item].
    rewrite Snum, Sden.
    rewrite (bindex_in_range_whole (b ++ [Y; X]) (bi ++ [k; l]))
      by (apply in_range_app; [assumption | now apply in_range_2]).
    now rewrite (bindex_in_range [Y; X] bi [k; l] (in_range_2 k l Y X Hk Hl)).
Qed.

(** A run on valid fields, with the values of [y], [x] and the shapes of
    the fields after the pad dispatch. *)
Lemma kottler_frame_valid gy gx pad w b y x :
  isdtype (result_type (dtype gy) (dtype gx)) KRealFloating = true ->
  shape gy = b ++ [y; x] -> shape gx = b ++ [y; x] ->
  check_shapes gx gy = inr (y, x) ->
  0 < y -> 0 < x ->
  pad = None \/ pad = Some "antisym"%string ->
  exists log F,
    run_frame gy gx pad w = (log, inr F) /\
    l_y F = y /\ l_x F = x /\
    (if py_bool pad then 2 * l_y F else l_y F) =
      (if py_eq pad "antisym" then 2 * y else y) /\
    (if py_bool pad then 2 * l_x F else l_x F) =
      (if py_eq pad "antisym" then 2 * x else x) /\
    shape (l_gy F) = b ++ [if py_eq pad "antisym" then 2 * y else y;
                           if py_eq pad "antisym" then 2 * x else x] /\
    shape (l_gx F) = b ++ [if py_eq pad "antisym" then 2 * y else y;
                           if py_eq pad "antisym" then 2 * x else x].
Proof.
  intros Hdt Hsy Hsx Hcs Hy Hx Hpad.
  destruct (kottler_frame_total gy gx pad w b y x Hdt Hsy Hsx Hcs Hy Hx Hpad)
    as (log & F & Hrun).
  exists log, F. split; [assumption |].
  pose proof (kottler_frame_inv _ _ _ _ _ _ _ _ Hrun) as Hinv.
  destruct Hinv as (g & f & _ & _ & _ & Hcs' & _ & Hg & _).
  rewrite Hcs in Hcs'. apply inr_eq in Hcs'.
  injection Hcs' as Ey Ex. rewrite <- Ey, <- Ex.
  rewrite (py_bool_valid pad Hpad).
  repeat split; try reflexivity.
  - destruct Hpad as [-> | ->]; cbn [py_eq] in *.
    + injection Hg as E1 E2. now rewrite E1.
    + rewrite String.eqb_refl in *.
      destruct (antisym_shape gy gx b b y x Hsy Hsx) as [H1 _].
      now rewrite <- Hg in H1.
  - destruct Hpad as [-> | ->]; cbn [py_eq] in *.
    + injection Hg as E1 E2. now rewrite E2.
    + rewrite String.eqb_refl in *.
      destruct (antisym_shape gy gx b b y x Hsy Hsx) as [_ H2].
      now rewrite <- Hg in H2.
Qed.

(** C1.  On valid real floating fields, with or without padding, the run
    returns and its spectral kernel is as follows.  The array [g] that is
    transformed is [gx + 1j * gy] of the (padded) fields, entry by entry,
    and [f_num] is its transform.  The denominator first computed has one
    entry per pair of a row frequency and a column frequency, namely
    [1j * 2.0 * pi * (fx[l] + 1j * fy[k])], and keeps these entries away from
    index [(0, 0)].  The quotient [f_phase_raw] is, at every leading index
    and every [(k, l)] of the last two axes, the entry of [f_num] divided by
    the entry [(k, l)] of [f_den], and the final phase spectrum keeps it away
    from index [(0, 0)]. *)
Theorem kottler_phase_spectrum gy gx pad w b y x :
  isdtype (result_type (dtype gy) (dtype gx)) KRealFloating = true ->
  shape gy = b ++ [y; x] -> shape gx = b ++ [y; x] ->
  check_shapes gx gy = inr (y, x) ->
  0 < y -> 0 < x ->
  pad = None \/ pad = Some "antisym"%string ->
  exists log F g,
    run_frame gy gx pad w = (log, inr F) /\
    (l_gy F, l_gx F) =
      (if py_eq pad "antisym" then antisym gy gx else (gy, gx)) /\
    shape g = b ++ [if py_eq pad "antisym" then 2 * y else y;
                    if py_eq pad "antisym" then 2 * x else x] /\
    (forall idx,
       in_range idx (b ++ [if py_eq pad "antisym" then 2 * y else y;
                           if py_eq pad "antisym" then 2 * x else x]) ->
       item g idx =
       s_add (item (l_gx F) idx) (s_mul s_1j (item (l_gy F) idx))) /\
    l_f_num F = xp_fft2 w g /\
    shape (l_f_den_raw F) = [if py_eq pad "antisym" then 2 * y else y;
                             if py_eq pad "antisym" then 2 * x else x] /\
    (forall k l,
       k < (if py_eq pad "antisym" then 2 * y else y) ->
       l < (if py_eq pad "antisym" then 2 * x else x) ->
       item (l_f_den_raw F) [k; l] =
       s_mul (s_mul (s_mul s_1j (s_float 2)) s_pi)
             (s_add (item (l_fx F) [l])
                    (s_mul s_1j (item (l_fy F) [k; 0])))) /\
    (forall k l, (k, l) <> (0, 0) ->
       item (l_f_den F) [k; l] = item (l_f_den_raw F) [k; l]) /\
    shape (l_f_phase_raw F) =
      b ++ [if py_eq pad "antisym" then 2 * y else y;
            if py_eq pad "antisym" then 2 * x else x] /\
    (forall bi k l, in_range bi b ->
       k < (if py_eq pad "antisym" then 2 * y else y) ->
       l < (if py_eq pad "antisym" then 2 * x else x) ->
       item (l_f_phase_raw F) (bi ++ [k; l]) =
       s_div (item (l_f_num F) (bi ++ [k; l])) (item (l_f_den F) [k; l])) /\
    (forall bi k l, (k, l) <> (0, 0) ->
       item (l_f_phase F) (bi ++ [k; l]) =
       item (l_f_phase_raw F) (bi ++ [k; l])).
Proof.
  intros Hdt Hsy Hsx Hcs Hy Hx Hpad.
  destruct (kottler_frame_valid gy gx pad w b y x Hdt Hsy Hsx Hcs Hy Hx Hpad)
    as (log & F & Hrun & _ & _ & EY & EX & Sgy & Sgx).
  destruct (kernel_entries _ _ _ _ _ _ _ _ _ Hrun Sgy Sgx EY EX)
    as ((g & Hnum & Sg & Hg) & Sraw & Hraw & Sphase & Hphase).
  pose proof (kottler_frame_inv _ _ _ _ _ _ _ _ Hrun) as Hinv.
  destruct Hinv as (g' & f & _ & _ & _ & _ & _ & Hpair & _ & _ & _ & _ & _
                    & _ & _ & _ & _ & Hden & _ & Hset & _).
  exists log, F, g.
  repeat split; try assumption.
  - intros k l Hkl.
    apply (setitem_item_other _ _ _ [] k l Hden Hkl).
  - intros bi k l Hkl.
    apply (setitem_item_other _ _ _ bi k l Hset Hkl).
Qed.

(** C2.  In every run that returns, for either pad mode: [f_den] is the
    denominator with its entry [(0, 0)] replaced by the constant [1.0], the
    division uses this [f_den], [f_phase] is the quotient with its entry
    [(0, 0)] replaced, at every leading index, by the constant [0.0], and
    this [f_phase] is what the inverse transform receives.  The constants
    are stored in the dtype of the array they are written to. *)
Theorem kottler_zero_frequency gy gx pad w log F :
  run_frame gy gx pad w = (log, inr F) ->
  (pad = None \/ pad = Some "antisym"%string) /\
  setitem (l_f_den_raw F) (s_float 1) = inr (l_f_den F) /\
  item (l_f_den F) [0; 0] = s_cast (dtype (l_f_den_raw F)) (s_float 1) /\
  divide (l_f_num F) (l_f_den F) = inr (l_f_phase_raw F) /\
  setitem (l_f_phase_raw F) (s_float 0) = inr (l_f_phase F) /\
  (forall bi,
     item (l_f_phase F) (bi ++ [0; 0]) =
     s_cast (dtype (l_f_phase_raw F)) (s_float 0)) /\
  crop (real (xp_ifft2 w (l_f_phase F))) (l_y F) (l_x F) = inr (l_return F).
Proof.
  intros Hrun.
  pose proof (kottler_frame_inv _ _ _ _ _ _ _ _ Hrun) as Hinv.
  destruct Hinv as (g & f & _ & _ & _ & _ & Hpad & _ & _ & _ & _ & _ & _
                    & _ & _ & _ & _ & Hden & Hdiv & Hset & Hcrop).
  repeat split; try assumption.
  - apply (setitem_item_zero _ _ _ [] Hden).
  - intros bi. apply (setitem_item_zero _ _ _ bi Hset).
Qed.

Lemma app_last2_inj (b b' : list nat) (y x y' x' : nat) :
  b ++ [y; x] = b' ++ [y'; x'] -> b = b' /\ y = y' /\ x = x'.
Proof.
  intros H. apply (f_equal split_last2) in H.
  rewrite !split_last2_app in H. inversion H. auto.
Qed.

(** C3.  On valid fields of shape [(..., y, x)], for either pad mode, the
    call returns; the returned array has the shape [(..., y, x)] of the
    fields before padding, and its entries are the real parts of the
    entries of the inverse transform at the same indices. *)
Theorem kottler_output_shape gy gx pad w b y x :
  isdtype (result_type (dtype gy) (dtype gx)) KRealFloating = true ->
  shape gy = b ++ [y; x] -> shape gx = b ++ [y; x] ->
  check_shapes gx gy = inr (y, x) ->
  0 < y -> 0 < x ->
  pad = None \/ pad = Some "antisym"%string ->
  exists log F,
    run_frame gy gx pad w = (log, inr F) /\
    run gy gx pad w = (log, inr (l_return F)) /\
    shape (l_return F) = b ++ [y; x] /\
    shape (xp_ifft2 w (l_f_phase F)) =
      b ++ [if py_eq pad "antisym" then 2 * y else y;
            if py_eq pad "antisym" then 2 * x else x] /\
    (forall idx,
       item (l_return F) idx = s_real (item (xp_ifft2 w (l_f_phase F)) idx)).
Proof.
  intros Hdt Hsy Hsx Hcs Hy Hx Hpad.
  destruct (kottler_frame_valid gy gx pad w b y x Hdt Hsy Hsx Hcs Hy Hx Hpad)
    as (log & F & Hrun & Ey & Ex & EY & EX & Sgy & Sgx).
  destruct (kernel_entries _ _ _ _ _ _ _ _ _ Hrun Sgy Sgx EY EX)
    as (_ & _ & _ & Sphase & _).
  pose proof (kottler_frame_inv _ _ _ _ _ _ _ _ Hrun) as Hinv.
  destruct Hinv as (g' & f & _ & _ & _ & _ & _ & _ & _ & _ & _ & _ & _
                    & _ & _ & _ & _ & _ & _ & Hset & Hcrop).
  assert (Sinv : shape (xp_ifft2 w (l_f_phase F)) =
                 b ++ [if py_eq pad "antisym" then 2 * y else y;
                       if py_eq pad "antisym" then 2 * x else x])
    by (now rewrite ifft2_shape, (setitem_shape _ _ _ Hset)).
  apply crop_inv in Hcrop. destruct Hcrop as (b' & Y' & X' & Sr & Er).
  cbn [shape real] in Sr. rewrite Sinv in Sr.
  apply app_last2_inj in Sr. destruct Sr as (<- & <- & <-).
  exists log, F.
  split; [assumption |]. split; [now apply kottler_of_frame_ok |].
  split; [| split; [assumption |]].
  - rewrite Er, Ey, Ex. cbn [shape]. f_equal.
    destruct (py_eq pad "antisym"); f_equal; [| f_equal | | f_equal]; lia.
  - intros idx. now rewrite Er.
Qed.

(** C6.  In every run that returns, with [(y, x)] the extent returned by
    [check_shapes]: the lengths passed to [fftfreq] are [2 x] and [2 y] when
    [antisym] was called and [x] and [y] otherwise, and they are the extents
    of the last two axes of the fields after the pad dispatch and of the
    array that is transformed; [fx] is a vector and [fy] a column, both of
    the promoted real floating dtype, and they broadcast to a [Y x X] grid;
    the entry at index [k] of a grid of length [n] is the cast to that dtype
    of [float(p) * (1.0 / (n * 1.0))], where the position [p] is [k] when
    [2 k < n] and [k - n] otherwise, so that the entry at index 0 is
    [0.0 * (1.0 / (n * 1.0))]. *)
Theorem kottler_frequency_grids gy gx pad w log F :
  run_frame gy gx pad w = (log, inr F) ->
  (pad = None \/ pad = Some "antisym"%string) /\
  (In CallAntisym log <-> pad = Some "antisym"%string) /\
  l_dtype F = result_type (dtype gy) (dtype gx) /\
  isdtype (l_dtype F) KRealFloating = true /\
  exists Y X,
    Y = (if py_eq pad "antisym" then 2 * l_y F else l_y F) /\
    X = (if py_eq pad "antisym" then 2 * l_x F else l_x F) /\
    In (CallFftfreq X) log /\ In (CallFftfreq Y) log /\
    0 < Y /\ 0 < X /\
    (exists by_ bx g,
       shape (l_gy F) = by_ ++ [Y; X] /\ shape (l_gx F) = bx ++ [Y; X] /\
       l_f_num F = xp_fft2 w g /\ exists bg, shape g = bg ++ [Y; X]) /\
    shape (l_fx F) = [X] /\ shape (l_fy F) = [Y; 1] /\
    dtype (l_fx F) = l_dtype F /\ dtype (l_fy F) = l_dtype F /\
    broadcast_shapes (shape (l_fx F)) (shape (l_fy F)) = Some [Y; X] /\
    (forall l, l < X ->
       item (l_fx F) [l] =
       s_cast (l_dtype F)
         (s_mul (s_float (if 2 * l <? X then Z.of_nat l
                          else (Z.of_nat l - Z.of_nat X)%Z))
                (s_div (s_float 1)
                       (s_mul (s_float (Z.of_nat X)) (s_float 1))))) /\
    (forall k, k < Y ->
       item (l_fy F) [k; 0] =
       s_cast (l_dtype F)
         (s_mul (s_float (if 2 * k <? Y then Z.of_nat k
                          else (Z.of_nat k - Z.of_nat Y)%Z))
                (s_div (s_float 1)
                       (s_mul (s_float (Z.of_nat Y)) (s_float 1))))) /\
    item (l_fx F) [0] =
      s_cast (l_dtype F)
        (s_mul (s_float 0)
               (s_div (s_float 1)
                      (s_mul (s_float (Z.of_nat X)) (s_float 1)))) /\
    item (l_fy F) [0; 0] =
      s_cast (l_dtype F)
        (s_mul (s_float 0)
               (s_div (s_float 1)
                      (s_mul (s_float (Z.of_nat Y)) (s_float 1)))).
Proof.
  intros Hrun.
  pose proof (padded_shapes _ _ _ _ _ _ Hrun) as (by_ & bx & Sgy & Sgx).
  pose proof (kottler_frame_inv _ _ _ _ _ _ _ _ Hrun) as Hinv.
  destruct Hinv as (g & f & Hlog & Hdt & Hreal & _ & Hpad & _ & _ & HX & HY
                    & Hfx & Hfy & Hg & Hnum & _).
  rewrite (py_bool_valid pad Hpad) in *.
  split; [assumption |]. split.
  { rewrite Hlog. destruct Hpad as [-> | ->]; cbn; split; intros H.
    - repeat (destruct H as [H | H]; [discriminate |]). contradiction.
    - discriminate.
    - reflexivity.
    - auto 10. }
  split; [assumption |]. split; [assumption |].
  exists (if py_eq pad "antisym" then 2 * l_y F else l_y F),
         (if py_eq pad "antisym" then 2 * l_x F else l_x F).
  split; [reflexivity |]. split; [reflexivity |].
  split; [rewrite Hlog; apply in_or_app; right; apply in_or_app; right;
          now left |].
  split; [rewrite Hlog; apply in_or_app; right; apply in_or_app; right;
          right; now left |].
  split; [assumption |]. split; [assumption |].
  split.
  { exists by_, bx, g. repeat split; try assumption.
    apply elementwise_inv in Hg. destruct Hg as (sg & Bg & ->).
    cbn [shape smul] in Bg. rewrite Sgx, Sgy in Bg.
    apply broadcast_shapes_app in Bg. destruct Bg as [bg ->].
    now exists bg. }
  rewrite Hfx, Hfy. cbn [shape dtype item astype hd].
  repeat split; try reflexivity.
  - apply broadcast_shapes_row_col.
  - intros l Hl. now rewrite (fftfreq_val_explicit _ l Hl).
  - intros k Hk. now rewrite (fftfreq_val_explicit _ k Hk).
  - now rewrite (fftfreq_val_first _ HX).
  - now rewrite (fftfreq_val_first _ HY).
Qed.

End KottlerRuns.

Section KottlerChecks.
Context {xp : ArrayNamespace}.
Variable check_shapes : Array -> Array -> Result (nat * nat).
Variable antisym : Array -> Array -> Array * Array.

Local Notation "'run_frame'" := (kottler_frame check_shapes antisym).
Local Notation "'run'" := (kottler check_shapes antisym).
Local Notation "'run_frame_by_equality'" :=
  (kottler_frame_by_equality check_shapes antisym).

(** C4.  When the promoted dtype of the two fields is not real floating,
    the call raises [ValueError("Input arrays must be real-valued.")] for
    every [pad] and every [workers], having called nothing but the dtype
    promotion and the dtype test: no shape check, no padding, no frequency
    grid, no transform. *)
Theorem kottler_rejects_non_real_dtype gy gx pad w :
  isdtype (result_type (dtype gy) (dtype gx)) KRealFloating = false ->
  run gy gx pad w =
  ([CallResultType; CallIsdtype],
   inl (ValueError "Input arrays must be real-valued.")).
Proof.
  intros H. apply kottler_of_frame_error.
  now apply kottler_frame_dtype_error.
Qed.

(** C5, as amended.  When the fields pass the dtype test and the shape
    check, every [pad] that is a string other than ["antisym"] makes the
    call raise [ValueError] with the message ["Invalid value for pad: "]
    followed by that string, after the dtype promotion, the dtype test,
    [get_dfts] and [check_shapes] only: no padding, no frequency grid, no
    transform and no indexed assignment. *)
Theorem kottler_rejects_invalid_pad gy gx p w y x :
  isdtype (result_type (dtype gy) (dtype gx)) KRealFloating = true ->
  check_shapes gx gy = inr (y, x) ->
  p <> "antisym"%string ->
  run gy gx (Some p) w =
  ([CallResultType; CallIsdtype; CallGetDfts; CallCheckShapes],
   inl (ValueError (String.append "Invalid value for pad: " p))).
Proof.
  intros Hdt Hcs Hp. apply kottler_of_frame_error.
  now apply (kottler_frame_pad_error _ _ _ _ _ _ y x).
Qed.

(** C9.  The checks run in the order dtype, shape, pad.  With a promoted
    dtype that is not real floating and fields that [check_shapes] rejects,
    the dtype error is raised and [check_shapes] is not called.  With a real
    floating dtype, fields that [check_shapes] rejects and a [pad] that is
    neither [None] nor ["antisym"], the exception of [check_shapes] is
    raised unchanged. *)
Theorem kottler_validation_order gy gx pad w e :
  check_shapes gx gy = inl e ->
  (isdtype (result_type (dtype gy) (dtype gx)) KRealFloating = false ->
   run gy gx pad w =
   ([CallResultType; CallIsdtype],
    inl (ValueError "Input arrays must be real-valued."))) /\
  (isdtype (result_type (dtype gy) (dtype gx)) KRealFloating = true ->
   pad <> None -> pad <> Some "antisym"%string ->
   run gy gx pad w =
   ([CallResultType; CallIsdtype; CallGetDfts; CallCheckShapes], inl e)).
Proof.
  intros He. split.
  - intros H. apply kottler_of_frame_error.
    now apply kottler_frame_dtype_error.
  - intros H _ _. apply kottler_of_frame_error.
    now apply kottler_frame_shape_error.
Qed.

Lemma bind_call_ext {A B : Type} (c : Call) (r : Result A) (f g : A -> M B) :
  (forall a, r = inr a -> f a = g a) -> bind (call c r) f = bind (call c r) g.
Proof.
  intros H. destruct r as [e | a]; [reflexivity |].
  unfold bind, call. now rewrite (H a eq_refl).
Qed.

(** The two bodies agree on every input. *)
Lemma kottler_frame_by_equality_eq gy gx pad w :
  run_frame gy gx pad w = run_frame_by_equality gy gx pad w.
Proof.
  unfold kottler_frame, kottler_frame_by_equality.
  apply bind_call_ext; intros dt _.
  apply bind_call_ext; intros rf _.
  destruct (negb rf); [reflexivity |].
  apply bind_call_ext; intros [fft2 ifft2] _.
  apply bind_call_ext; intros [y x] _.
  destruct pad as [p |]; [| reflexivity].
  destruct (String.eqb_spec p "antisym") as [-> | Hp]; [reflexivity |].
  rewrite (py_eq_false _ _ Hp). reflexivity.
Qed.

(** A call whose log shows a frequency grid got past the pad dispatch. *)
Lemma fftfreq_logged_pad_valid gy gx pad w log r n :
  run_frame gy gx pad w = (log, r) ->
  In (CallFftfreq n) log ->
  pad = None \/ pad = Some "antisym"%string.
Proof.
  intros Hrun Hin.
  destruct pad as [p |]; [| now left].
  destruct (String.eqb_spec p "antisym") as [-> | Hp]; [now right |].
  exfalso.
  destruct (isdtype (result_type (dtype gy) (dtype gx)) KRealFloating) eqn:Hdt.
  - destruct (check_shapes gx gy) as [e | [y x]] eqn:Hcs.
    + rewrite (kottler_frame_shape_error _ _ _ _ _ _ e Hdt Hcs) in Hrun.
      injection Hrun as <- _. cbn in Hin.
      repeat (destruct Hin as [Hin | Hin]; [discriminate |]). contradiction.
    + rewrite (kottler_frame_pad_error _ _ _ _ _ _ y x Hdt Hcs Hp) in Hrun.
      injection Hrun as <- _. cbn in Hin.
      repeat (destruct Hin as [Hin | Hin]; [discriminate |]). contradiction.
  - rewrite (kottler_frame_dtype_error _ _ _ _ _ _ Hdt) in Hrun.
    injection Hrun as <- _. cbn in Hin.
    repeat (destruct Hin as [Hin | Hin]; [discriminate |]). contradiction.
Qed.

(** C10.  Choosing the transform lengths by the truth value of [pad] is the
    same as choosing them by the test [pad == "antisym"]: the two bodies
    give the same log and the same result on every input.  Every call whose
    log shows a frequency grid has [pad] equal to [None] or ["antisym"], so
    that the two tests agree there; the empty string, whose truth value is
    false, is rejected before any grid is built.  In a run that returns the
    lengths are doubled exactly when [antisym] was called. *)
Theorem kottler_pad_truth_is_antisym_test gy gx pad w :
  run_frame gy gx pad w = run_frame_by_equality gy gx pad w /\
  (forall log r n,
     run_frame gy gx pad w = (log, r) -> In (CallFftfreq n) log ->
     (pad = None \/ pad = Some "antisym"%string) /\
     py_bool pad = py_eq pad "antisym") /\
  (forall log r,
     run_frame gy gx (Some EmptyString) w = (log, r) ->
     py_bool (Some EmptyString) = false /\
     (forall n, ~ In (CallFftfreq n) log) /\ exists e, r = inl e) /\
  (forall log F,
     run_frame gy gx pad w = (log, inr F) ->
     (In CallAntisym log <-> py_bool pad = true) /\
     In (CallFftfreq (if py_eq pad "antisym" then 2 * l_x F else l_x F)) log /\
     In (CallFftfreq (if py_eq pad "antisym" then 2 * l_y F else l_y F)) log).
Proof.
  split; [apply kottler_frame_by_equality_eq |].
  split; [| split].
  - intros log r n Hrun Hin.
    pose proof (fftfreq_logged_pad_valid _ _ _ _ _ _ _ Hrun Hin) as Hpad.
    split; [assumption | now apply py_bool_valid].
  - intros log r Hrun. split; [reflexivity |].
    assert (Hno : forall n, ~ In (CallFftfreq n) log).
    { intros n Hin.
      destruct (fftfreq_logged_pad_valid _ _ _ _ _ _ _ Hrun Hin); discriminate. }
    split; [assumption |].
    destruct r as [e | F]; [now exists e |]. exfalso.
    apply kottler_frame_inv in Hrun.
    destruct Hrun as (_ & _ & _ & _ & _ & _ & [Hp | Hp] & _); discriminate.
  - intros log F Hrun.
    pose proof (kottler_frame_inv _ _ _ _ _ _ _ _ Hrun) as Hinv.
    destruct Hinv as (g & f & Hlog & _ & _ & _ & Hpad & _).
    rewrite (py_bool_valid pad Hpad) in *. rewrite Hlog.
    destruct Hpad as [-> | ->]; cbn; repeat split; auto 10.
    + intros H.
      repeat (destruct H as [H | H]; [discriminate |]). contradiction.
    + discriminate.
Qed.

End KottlerChecks.

Section KottlerWorkers.
Context {xp : ArrayNamespace}.
Variable check_shapes : Array -> Array -> Result (nat * nat).
Variable antisym : Array -> Array -> Array * Array.

Local Notation "'run_frame'" := (kottler_frame check_shapes antisym).
Local Notation "'run'" := (kottler check_shapes antisym).

Lemma kottler_frame_workers gy gx pad w w' :
  (forall a, xp_fft2 w a = xp_fft2 w' a) ->
  (forall a, xp_ifft2 w a = xp_ifft2 w' a) ->
  run_frame gy gx pad w = run_frame gy gx pad w'.
Proof.
  intros Hf Hi. unfold kottler_frame.
  apply bind_ext; intros dt.
  apply bind_ext; intros rf.
  destruct (negb rf); [reflexivity |].
  unfold get_dfts. rewrite !bind_call_pure. cbv beta iota.
  match goal with
  | |- (_ :: fst ?a, snd ?a) = (_ :: fst ?b, snd ?b) =>
      enough (Hab : a = b) by now rewrite Hab
  end.
  apply bind_ext; intros [y x].
  apply bind_ext; intros [gy' gx'].
  apply bind_ext; intros fx.
  apply bind_ext; intros fy.
  apply bind_ext; intros fy1.
  apply bind_ext; intros g.
  rewrite (Hf g).
  apply bind_ext; intros f_num.
  apply bind_ext; intros f.
  apply bind_ext; intros f_den.
  apply bind_ext; intros f_phase_raw.
  apply bind_ext; intros f_phase.
  rewrite (Hi f_phase).
  reflexivity.
Qed.

(** C8.  [kottler] is a function of its arguments, so that two runs on the
    same arguments give the same log and the same result; [workers] is
    handed to the two transforms and used nowhere else: for two values of
    [workers] on which the transforms of the namespace agree, the logs and
    the results of [kottler] are the same. *)
Theorem kottler_workers_invariant gy gx pad w w' :
  (forall a, xp_fft2 w a = xp_fft2 w' a) ->
  (forall a, xp_ifft2 w a = xp_ifft2 w' a) ->
  run gy gx pad w = run gy gx pad w'.
Proof.
  intros Hf Hi. unfold kottler.
  now rewrite (kottler_frame_workers gy gx pad w w' Hf Hi).
Qed.

End KottlerWorkers.

(** * The reference namespace meets the contracts, and runs of [kottler]
    on the 2 x 2 example *)

Section ReferenceRuns.
Import Reference.

Lemma reference_dft2_shape (inverse : bool) (a : NDArray Reference.C) :
  shape (Reference.dft2 inverse a) = shape a.
Proof.
  unfold Reference.dft2.
  destruct (split_last2 (shape a)) as [[[b Y] X] |]; reflexivity.
Qed.

Lemma reference_antisym_field_shape (ny nx : bool) (g : NDArray Reference.C)
  (b : Shape) (y x : nat) :
  shape g = b ++ [y; x] ->
  shape (Reference.antisym_field ny nx g) = b ++ [2 * y; 2 * x].
Proof.
  intros H. unfold Reference.antisym_field.
  now rewrite H, split_last2_app.
Qed.

Lemma reference_antisym_shape (gy gx : NDArray Reference.C)
  (by_ bx : Shape) (y x : nat) :
  shape gy = by_ ++ [y; x] -> shape gx = bx ++ [y; x] ->
  shape (fst (Reference.antisym gy gx)) = by_ ++ [2 * y; 2 * x] /\
  shape (snd (Reference.antisym gy gx)) = bx ++ [2 * y; 2 * x].
Proof.
  intros Hy Hx. split; now apply reference_antisym_field_shape.
Qed.

Lemma reference_check_shapes_sound (a b : NDArray Reference.C) (y x : nat) :
  Reference.check_shapes a b = inr (y, x) ->
  exists sa sb, shape a = sa ++ [y; x] /\ shape b = sb ++ [y; x].
Proof.
  unfold Reference.check_shapes.
  destruct (split_last2 (shape a)) as [[[sa ya] xa] |] eqn:Ea; [| discriminate].
  destruct (split_last2 (shape b)) as [[[sb yb] xb] |] eqn:Eb; [| discriminate].
  destruct ((ya =? yb) && (xa =? xb)) eqn:E; [| discriminate].
  apply andb_true_iff in E. destruct E as [E1 E2].
  apply Nat.eqb_eq in E1. apply Nat.eqb_eq in E2. subst.
  intros H. inversion H; subst.
  exists sa, sb. split; now apply split_last2_inv.
Qed.


(** The kernel of C1 on the 2 x 2 example without padding. *)
Lemma kottler_phase_spectrum_witness :
  isdtype (promote Float64 Float64) KRealFloating = true /\
  check_shapes gx22 gy22 = inr (2, 2) /\
  exists log F,
    run_frame gy22 gx22 None None = (log, inr F) /\
    shape (l_f_phase_raw F) = [2; 2] /\
    (forall k l, k < 2 -> l < 2 ->
       item (l_f_den_raw F) [k; l] =
       c_mul (c_mul (c_mul c_1j (c_of_Z 2)) c_pi)
             (c_add (item (l_fx F) [l]) (c_mul c_1j (item (l_fy F) [k; 0])))) /\
    (forall k l, k < 2 -> l < 2 ->
       item (l_f_phase_raw F) [k; l] =
       c_div (item (l_f_num F) [k; l]) (item (l_f_den F) [k; l])).
Proof.
  split; [reflexivity |]. split; [reflexivity |].
  destruct (kottler_phase_spectrum (xp := namespace) check_shapes antisym
              (fun _ => reference_dft2_shape false)
              (fun _ => reference_dft2_shape true)
              reference_antisym_shape
              gy22 gx22 None None [] 2 2
              eq_refl eq_refl eq_refl eq_refl
              (Nat.lt_0_succ 1) (Nat.lt_0_succ 1) (or_introl eq_refl))
    as (log & F & g & Hrun & _ & _ & _ & _ & _ & Hraw & _ & Sp & Hp & _).
  exists log, F. split; [exact Hrun |]. split; [exact Sp |].
  split; [exact Hraw |].
  intros k l Hk Hl. exact (Hp [] k l (Forall2_nil _) Hk Hl).
Defined.

(** The padded run on the 2 x 2 example returns. *)
Lemma reference_run_antisym :
  exists log F,
    run_frame gy22 gx22 (Some "antisym"%string) None = (log, inr F) /\
    l_y F = 2 /\ l_x F = 2.
Proof.
  destruct (kottler_frame_valid (xp := namespace) check_shapes antisym
              (fun _ => reference_dft2_shape false)
              (fun _ => reference_dft2_shape true)
              reference_antisym_shape
              gy22 gx22 (Some "antisym"%string) None [] 2 2
              eq_refl eq_refl eq_refl eq_refl
              (Nat.lt_0_succ 1) (Nat.lt_0_succ 1) (or_intror eq_refl))
    as (log & F & Hrun & Ey & Ex & _).
  exists log, F. unfold run_frame.
  split; [exact Hrun | split; [exact Ey | exact Ex]].
Qed.

(** The constants of C2 in the padded run on the 2 x 2 example. *)
Lemma kottler_zero_frequency_witness :
  exists log F,
    run_frame gy22 gx22 (Some "antisym"%string) None = (log, inr F) /\
    item (l_f_den F) [0; 0] = c_cast (dtype (l_f_den_raw F)) (c_of_Z 1) /\
    forall bi, item (l_f_phase F) (bi ++ [0; 0]) =
               c_cast (dtype (l_f_phase_raw F)) (c_of_Z 0).
Proof.
  destruct reference_run_antisym as (log & F & Hrun & _).
  exists log, F. split; [exact Hrun |].
  destruct (kottler_zero_frequency (xp := namespace) check_shapes antisym
              gy22 gx22 (Some "antisym"%string) None log F Hrun)
    as (_ & _ & H1 & _ & _ & H2 & _).
  split; [exact H1 | exact H2].
Defined.

(** The padded run on the 2 x 2 example returns a 2 x 2 array (C3). *)
Lemma kottler_output_shape_witness :
  exists log F,
    run_frame gy22 gx22 (Some "antisym"%string) None = (log, inr F) /\
    run gy22 gx22 (Some "antisym"%string) None = (log, inr (l_return F)) /\
    shape (l_return F) = [2; 2] /\
    shape (dft2 true (l_f_phase F)) = [4; 4] /\
    (forall idx,
       item (l_return F) idx = c_real (item (dft2 true (l_f_phase F)) idx)).
Proof.
  apply (kottler_output_shape (xp := namespace) check_shapes antisym
           (fun _ => reference_dft2_shape false)
           (fun _ => reference_dft2_shape true)
           reference_antisym_shape
           gy22 gx22 (Some "antisym"%string) None [] 2 2).
  - reflexivity.
  - reflexivity.
  - reflexivity.
  - reflexivity.
  - lia.
  - lia.
  - right. reflexivity.
Defined.

(** Integer fields are rejected at the dtype test (C4). *)
Lemma kottler_rejects_non_real_dtype_witness :
  isdtype (promote Int64 Int64) KRealFloating = false /\
  run gy22_int gx22_int (Some "antisym"%string) (Some 4%Z) =
  ([CallResultType; CallIsdtype],
   inl (ValueError "Input arrays must be real-valued.")).
Proof.
  split; [reflexivity |].
  apply (kottler_rejects_non_real_dtype (xp := namespace)
           check_shapes antisym gy22_int gx22_int).
  reflexivity.
Defined.

(** The pad ["symmetric"] is rejected with valid fields (C5 as amended). *)
Lemma kottler_rejects_invalid_pad_witness :
  run gy22 gx22 (Some "symmetric"%string) None =
  ([CallResultType; CallIsdtype; CallGetDfts; CallCheckShapes],
   inl (ValueError "Invalid value for pad: symmetric")).
Proof.
  apply (kottler_rejects_invalid_pad (xp := namespace)
           check_shapes antisym gy22 gx22 "symmetric" None 2 2).
  - reflexivity.
  - reflexivity.
  - discriminate.
Defined.

(** C5 as stated fails: with the invalid pad ["symmetric"], integer fields
    raise the dtype error, whose message does not contain the pad, and
    fields of different shapes raise the error of [check_shapes]; so it is
    not the case that every pad other than [None] and ["antisym"] makes the
    call raise the invalid-pad error. *)
Lemma kottler_invalid_pad_counterexample :
  run gy22_int gx22_int (Some "symmetric"%string) None =
    ([CallResultType; CallIsdtype],
     inl (ValueError "Input arrays must be real-valued.")) /\
  String.index 0 "symmetric" "Input arrays must be real-valued." = None /\
  run gy22 gx23 (Some "symmetric"%string) None =
    ([CallResultType; CallIsdtype; CallGetDfts; CallCheckShapes],
     inl (OtherError "ShapeError" "Input arrays must have the same shape.")) /\
  ~ (forall (gy gx : NDArray C) (pad : Pad) (w : option Z),
       pad <> None -> pad <> Some "antisym"%string ->
       exists log,
         run gy gx pad w =
         (log, inl (ValueError
                      (String.append "Invalid value for pad: " (py_str pad))))).
Proof.
  assert (E : run gy22_int gx22_int (Some "symmetric"%string) None =
              ([CallResultType; CallIsdtype],
               inl (ValueError "Input arrays must be real-valued.")))
    by reflexivity.
  split; [exact E |]. split; [reflexivity |]. split; [reflexivity |].
  intros H.
  destruct (H gy22_int gx22_int (Some "symmetric"%string) None) as [log Hrun];
    [discriminate | discriminate |].
  rewrite E in Hrun. discriminate Hrun.
Qed.

(** The grids of the padded run on the 2 x 2 example have length 4 (C6). *)
Lemma kottler_frequency_grids_witness :
  exists log F,
    run_frame gy22 gx22 (Some "antisym"%string) None = (log, inr F) /\
    In CallAntisym log /\
    In (CallFftfreq 4) log /\
    (exists bx, shape (l_gx F) = bx ++ [4; 4]) /\
    shape (l_fx F) = [4] /\ shape (l_fy F) = [4; 1] /\
    dtype (l_fx F) = Float64 /\ dtype (l_fy F) = Float64 /\
    item (l_fx F) [1] =
      c_cast (l_dtype F)
        (c_mul (c_of_Z 1) (c_div (c_of_Z 1) (c_mul (c_of_Z 4) (c_of_Z 1)))) /\
    item (l_fx F) [2] =
      c_cast (l_dtype F)
        (c_mul (c_of_Z (-2))
               (c_div (c_of_Z 1) (c_mul (c_of_Z 4) (c_of_Z 1)))) /\
    item (l_fy F) [3; 0] =
      c_cast (l_dtype F)
        (c_mul (c_of_Z (-1))
               (c_div (c_of_Z 1) (c_mul (c_of_Z 4) (c_of_Z 1)))) /\
    item (l_fy F) [0; 0] =
      c_cast (l_dtype F)
        (c_mul (c_of_Z 0) (c_div (c_of_Z 1) (c_mul (c_of_Z 4) (c_of_Z 1)))).
Proof.
  destruct reference_run_antisym as (log & F & Hrun & Ey & Ex).
  exists log, F. split; [exact Hrun |].
  destruct (kottler_frequency_grids (xp := namespace) check_shapes antisym
              reference_antisym_shape reference_check_shapes_sound
              gy22 gx22 (Some "antisym"%string) None log F Hrun)
    as (_ & Hin & Hdt & _ & Y & X & EY & EX & HinX & _ & _ & _
        & (by_ & bx & g & _ & Sgx & _) & Sfx & Sfy & Dfx & Dfy & _ & Ifx
        & Ify & _ & Ify0).
  cbn [py_eq] in EY, EX. rewrite String.eqb_refl, Ey in EY.
  rewrite String.eqb_refl, Ex in EX. cbn in EY, EX. subst Y X.
  split; [apply Hin; reflexivity |]. split; [exact HinX |].
  split; [exists bx; exact Sgx |].
  split; [exact Sfx |]. split; [exact Sfy |].
  split; [rewrite Dfx, Hdt; reflexivity |].
  split; [rewrite Dfy, Hdt; reflexivity |].
  split; [exact (Ifx 1 ltac:(lia)) |].
  split; [exact (Ifx 2 ltac:(lia)) |].
  split; [exact (Ify 3 ltac:(lia)) | exact Ify0].
Defined.

(** One and four workers give the same run in the reference namespace (C8). *)
Lemma kottler_workers_invariant_witness :
  run gy22 gx22 (Some "antisym"%string) (Some 1%Z) =
  run gy22 gx22 (Some "antisym"%string) (Some 4%Z).
Proof.
  apply (kottler_workers_invariant (xp := namespace) check_shapes antisym).
  - intros a. reflexivity.
  - intros a. reflexivity.
Defined.

(** The order of the checks on integer fields and on fields of different
    shapes (C9). *)
Lemma kottler_validation_order_witness :
  run gy22_int gx23_int (Some "symmetric"%string) None =
    ([CallResultType; CallIsdtype],
     inl (ValueError "Input arrays must be real-valued.")) /\
  run gy22 gx23 (Some "symmetric"%string) None =
    ([CallResultType; CallIsdtype; CallGetDfts; CallCheckShapes],
     inl (OtherError "ShapeError" "Input arrays must have the same shape.")).
Proof.
  split.
  - apply (proj1 (kottler_validation_order (xp := namespace)
                    check_shapes antisym gy22_int gx23_int
                    (Some "symmetric"%string) None _ eq_refl)).
    reflexivity.
  - apply (proj2 (kottler_validation_order (xp := namespace)
                    check_shapes antisym gy22 gx23
                    (Some "symmetric"%string) None _ eq_refl)).
    + reflexivity.
    + discriminate.
    + discriminate.
Defined.

(** The two bodies agree on the padded 2 x 2 example (C10). *)
Lemma kottler_pad_truth_is_antisym_test_witness :
  run_frame gy22 gx22 (Some "antisym"%string) None =
  kottler_frame_by_equality check_shapes antisym
    gy22 gx22 (Some "antisym"%string) None.
Proof.
  exact (proj1 (kottler_pad_truth_is_antisym_test (xp := namespace)
                  check_shapes antisym gy22 gx22
                  (Some "antisym"%string) None)).
Defined.

(** The 2 x 2 example holds the gradients of the ramp [phi(k, l) = k + 2 l],
    whose centred values are [-3/2, 1/2, -1/2, 3/2].  Without padding the
    constant gradients have no component away from the zero frequency and the
    returned field is zero; with padding the returned field is
    [-6/pi, 2/pi, -2/pi, 6/pi] for the double-precision value of pi. *)
Example linear_ramp_runs :
  entries22 (run gy22 gx22 None None) =
    Some ([2; 2], [(0, 0); (0, 0); (0, 0); (0, 0)]%Q) /\
  entries22 (run gy22 gx22 (Some "antisym"%string) None) =
    Some ([2; 2],
          [(-1688849860263936 # 884279719003555, 0);
           (562949953421312 # 884279719003555, 0);
           (-562949953421312 # 884279719003555, 0);
           (1688849860263936 # 884279719003555, 0)]%Q).
Proof. split; vm_compute; reflexivity. Qed.

End ReferenceRuns.

(** * Further properties of [kottler] *)

(** ** More on the monad and on broadcasting *)

Lemma bind_call_step {A B : Type} (c : Call) (a : A) (f : A -> M B) l r :
  f a = (l, r) -> bind (call c (inr a)) f = (c :: l, r).
Proof. intros H. unfold bind, call. now rewrite H. Qed.

Lemma bind_lift_step {A B : Type} (a : A) (f : A -> M B) l r :
  f a = (l, r) -> bind (lift (inr a)) f = (l, r).
Proof. intros H. unfold bind, lift. now rewrite H. Qed.

Lemma bind_step {A B : Type} (m : M A) (f : A -> M B) l1 a l2 r :
  m = (l1, inr a) -> f a = (l2, r) -> bind m f = (l1 ++ l2, r).
Proof. intros -> H. unfold bind. now rewrite H. Qed.

Lemma bind_ret_step {A B : Type} (a : A) (f : A -> M B) l r :
  f a = (l, r) -> bind (ret a) f = (l, r).
Proof. intros H. unfold bind, ret. now rewrite H. Qed.

(** After a common first step, two computations agree or have both logged
    the call [c]. *)
Lemma bind_same_until {A B : Type} (c : Call) (m : M A) (f f' : A -> M B) :
  (forall a, snd m = inr a ->
     f a = f' a \/ (In c (fst (f a)) /\ In c (fst (f' a)))) ->
  bind m f = bind m f' \/
  (In c (fst (bind m f)) /\ In c (fst (bind m f'))).
Proof.
  intros H. destruct m as [l [e | a]]; [left; reflexivity |].
  destruct (H a eq_refl) as [E | [H1 H2]].
  - left. unfold bind. now rewrite E.
  - right. unfold bind. destruct (f a) as [l1 r1], (f' a) as [l2 r2].
    cbn [fst] in *. split; apply in_or_app; right; assumption.
Qed.

Lemma log_bind_step {A B : Type} (c : Call) (m : M A) (f : A -> M B) l a :
  m = (l, inr a) -> In c (fst (f a)) -> In c (fst (bind m f)).
Proof.
  intros -> H. unfold bind. destruct (f a) as [l' r]. cbn [fst] in *.
  apply in_or_app. now right.
Qed.

Lemma bcast_rev_app_ok (t a b c : list nat) :
  bcast_rev a b = Some c -> bcast_rev (t ++ a) (t ++ b) = Some (t ++ c).
Proof.
  intros H. induction t as [| d t IH]; [assumption |].
  simpl. now rewrite bcast_dim_refl, IH.
Qed.

(** Broadcasting the leading axes of two operands with the same last axes. *)
Lemma broadcast_shapes_app_ok (s1 s2 r t : Shape) :
  broadcast_shapes s1 s2 = Some r ->
  broadcast_shapes (s1 ++ t) (s2 ++ t) = Some (r ++ t).
Proof.
  unfold broadcast_shapes. rewrite !rev_app_distr.
  destruct (bcast_rev (rev s1) (rev s2)) as [c |] eqn:E; [| discriminate].
  simpl. intros H. injection H as <-.
  rewrite (bcast_rev_app_ok (rev t) _ _ _ E). simpl.
  now rewrite rev_app_distr, rev_involutive.
Qed.

Section KottlerEdges.
Context {xp : ArrayNamespace}.
Variable check_shapes : Array -> Array -> Result (nat * nat).
Variable antisym : Array -> Array -> Array * Array.

Local Notation "'run_frame'" := (kottler_frame check_shapes antisym).
Local Notation "'run'" := (kottler check_shapes antisym).

(** The run up to the first frequency grid, on fields that pass the checks. *)
Lemma kottler_frame_empty_x gy gx pad w y :
  isdtype (result_type (dtype gy) (dtype gx)) KRealFloating = true ->
  check_shapes gx gy = inr (y, 0) ->
  pad = None \/ pad = Some "antisym"%string ->
  run_frame gy gx pad w =
  ([CallResultType; CallIsdtype; CallGetDfts; CallCheckShapes]
   ++ (if py_eq pad "antisym" then [CallAntisym] else [])
   ++ [CallFftfreq 0],
   inl (ZeroDivisionError "float division by zero")).
Proof.
  intros Hdt Hcs Hpad. unfold kottler_frame.
  apply bind_call_step. apply bind_call_step. rewrite Hdt. cbn [negb].
  apply bind_call_step. unfold get_dfts. rewrite Hcs.
  apply bind_call_step.
  destruct Hpad as [-> | ->].
  - reflexivity.
  - change (py_eq (Some "antisym"%string) "antisym") with true. cbv iota.
    apply bind_call_step. destruct (antisym gy gx) as [gy' gx'].
    reflexivity.
Qed.

Lemma kottler_frame_empty_y gy gx pad w x :
  isdtype (result_type (dtype gy) (dtype gx)) KRealFloating = true ->
  check_shapes gx gy = inr (0, x) ->
  0 < x ->
  pad = None \/ pad = Some "antisym"%string ->
  run_frame gy gx pad w =
  ([CallResultType; CallIsdtype; CallGetDfts; CallCheckShapes]
   ++ (if py_eq pad "antisym" then [CallAntisym] else [])
   ++ [CallFftfreq (if py_eq pad "antisym" then 2 * x else x); CallFftfreq 0],
   inl (ZeroDivisionError "float division by zero")).
Proof.
  intros Hdt Hcs Hx Hpad. unfold kottler_frame.
  apply bind_call_step. apply bind_call_step. rewrite Hdt. cbn [negb].
  apply bind_call_step. unfold get_dfts. rewrite Hcs.
  apply bind_call_step.
  destruct Hpad as [-> | ->].
  - cbn [py_eq is_None py_bool app]. apply bind_ret_step.
    rewrite (fftfreq_ok x Hx). apply bind_call_step. reflexivity.
  - change (py_eq (Some "antisym"%string) "antisym") with true.
    change (py_bool (Some "antisym"%string)) with true. cbv iota.
    apply bind_call_step. destruct (antisym gy gx) as [gy' gx'].
    rewrite (fftfreq_ok (2 * x)) by lia. apply bind_call_step. reflexivity.
Qed.

End KottlerEdges.

Section KottlerBatch.
Context {xp : ArrayNamespace}.
Variable check_shapes : Array -> Array -> Result (nat * nat).
Variable antisym : Array -> Array -> Array * Array.

Local Notation "'run_frame'" := (kottler_frame check_shapes antisym).
Local Notation "'run'" := (kottler check_shapes antisym).

Hypothesis fft2_shape : forall w a, shape (xp_fft2 w a) = shape a.
Hypothesis ifft2_shape : forall w a, shape (xp_ifft2 w a) = shape a.
Hypothesis antisym_shape : forall gy gx by_ bx y x,
  shape gy = by_ ++ [y; x] -> shape gx = bx ++ [y; x] ->
  shape (fst (antisym gy gx)) = by_ ++ [2 * y; 2 * x] /\
  shape (snd (antisym gy gx)) = bx ++ [2 * y; 2 * x].
Hypothesis check_shapes_sound : forall a b y x,
  check_shapes a b = inr (y, x) ->
  exists sa sb, shape a = sa ++ [y; x] /\ shape b = sb ++ [y; x].

(** The pad dispatch on a valid [pad], with the shapes of its results. *)
Lemma pad_dispatch_shapes (gy gx : Array) (pad : Pad) by_ bx y x :
  shape gy = by_ ++ [y; x] -> shape gx = bx ++ [y; x] ->
  pad = None \/ pad = Some "antisym"%string ->
  exists gy' gx',
    (if py_eq pad "antisym" then call CallAntisym (inr (antisym gy gx))
     else if is_None pad then ret (gy, gx)
     else raise (ValueError
                   (String.append "Invalid value for pad: " (py_str pad)))) =
    ((if py_eq pad "antisym" then [CallAntisym] else []), inr (gy', gx')) /\
    shape gy' = by_ ++ [if py_eq pad "antisym" then 2 * y else y;
                        if py_eq pad "antisym" then 2 * x else x] /\
    shape gx' = bx ++ [if py_eq pad "antisym" then 2 * y else y;
                       if py_eq pad "antisym" then 2 * x else x].
Proof.
  intros Hsy Hsx [-> | ->].
  - exists gy, gx. cbn. auto.
  - destruct (antisym_shape gy gx by_ bx y x Hsy Hsx) as [H1 H2].
    exists (fst (antisym gy gx)), (snd (antisym gy gx)).
    change (py_eq (Some "antisym"%string) "antisym") with true. cbv iota.
    unfold call. rewrite <- surjective_pairing. auto.
Qed.

(** A run on fields whose leading axes broadcast returns. *)
Lemma kottler_frame_total_broadcast gy gx pad w by_ bx bb y x :
  isdtype (result_type (dtype gy) (dtype gx)) KRealFloating = true ->
  shape gy = by_ ++ [y; x] -> shape gx = bx ++ [y; x] ->
  broadcast_shapes bx by_ = Some bb ->
  check_shapes gx gy = inr (y, x) ->
  0 < y -> 0 < x ->
  pad = None \/ pad = Some "antisym"%string ->
  exists log F, run_frame gy gx pad w = (log, inr F).
Proof.
  intros Hdt Hsy Hsx Hbb Hcs Hy Hx Hpad.
  destruct (pad_dispatch_shapes gy gx pad by_ bx y x Hsy Hsx Hpad)
    as (gy' & gx' & Hd & Hgy & Hgx).
  assert (HY : 0 < (if py_eq pad "antisym" then 2 * y else y))
    by (destruct (py_eq pad "antisym"); lia).
  assert (HX : 0 < (if py_eq pad "antisym" then 2 * x else x))
    by (destruct (py_eq pad "antisym"); lia).
  remember (if py_eq pad "antisym" then 2 * y else y) as Y eqn:EY in *.
  remember (if py_eq pad "antisym" then 2 * x else x) as X eqn:EX in *.
  unfold kottler_frame.
  eexists. eexists.
  eapply bind_call_ok. eapply bind_call_ok. rewrite Hdt. cbn [negb].
  eapply bind_call_ok. unfold get_dfts.
  rewrite Hcs. eapply bind_call_ok.
  eapply bind_ok; [exact Hd |]. cbv beta iota.
  rewrite (py_bool_valid pad Hpad), <- EX, <- EY.
  rewrite (fftfreq_ok X HX). eapply bind_call_ok.
  rewrite (fftfreq_ok Y HY). eapply bind_call_ok.
  rewrite newaxis1_vector. eapply bind_lift_ok.
  unfold add at 1.
  rewrite (elementwise_ok _ _ _ (bb ++ [Y; X]))
    by (cbn [shape smul]; rewrite Hgx, Hgy;
        apply broadcast_shapes_app_ok; exact Hbb).
  eapply bind_lift_ok. eapply bind_call_ok.
  unfold add.
  rewrite (elementwise_ok _ _ _ [Y; X]) by apply broadcast_shapes_row_col.
  eapply bind_lift_ok.
  rewrite (setitem_ok _ _ [] Y X) by (reflexivity || assumption).
  eapply bind_call_ok.
  unfold divide.
  rewrite (elementwise_ok _ _ _ (bb ++ [Y; X]))
    by (cbn [shape]; rewrite fft2_shape; apply broadcast_shapes_batch).
  eapply bind_lift_ok.
  rewrite (setitem_ok _ _ bb Y X) by (reflexivity || assumption).
  eapply bind_call_ok. eapply bind_call_ok.
  rewrite (crop_ok _ bb Y X) by (cbn [shape real]; apply ifft2_shape).
  eapply bind_lift_ok. reflexivity.
Qed.

(** The shape of the array returned by a run on fields whose leading axes
    broadcast to [bb]. *)
Lemma return_shape_broadcast gy gx pad w log F by_ bx bb y x :
  run_frame gy gx pad w = (log, inr F) ->
  shape gy = by_ ++ [y; x] -> shape gx = bx ++ [y; x] ->
  broadcast_shapes bx by_ = Some bb ->
  check_shapes gx gy = inr (y, x) ->
  shape (l_return F) = bb ++ [y; x].
Proof.
  intros Hrun Hsy Hsx Hbb Hcs.
  apply kottler_frame_inv in Hrun.
  destruct Hrun as (g & f & _ & _ & _ & Hcs' & Hpad & Hpair & _ & _ & _
                    & Hfx & Hfy & Hg & Hnum & Hf & Hraw & Hden & Hdiv
                    & Hset & Hcrop).
  rewrite Hcs in Hcs'. apply inr_eq in Hcs'. injection Hcs' as Ey Ex.
  rewrite <- Ey, <- Ex in *. rewrite (py_bool_valid pad Hpad) in *.
  assert (Sg : shape (l_gy F) =
               by_ ++ [if py_eq pad "antisym" then 2 * y else y;
                       if py_eq pad "antisym" then 2 * x else x] /\
               shape (l_gx F) =
               bx ++ [if py_eq pad "antisym" then 2 * y else y;
                      if py_eq pad "antisym" then 2 * x else x]).
  { destruct Hpad as [-> | ->]; cbn [py_eq] in *.
    - injection Hpair as E1 E2. now rewrite E1, E2.
    - rewrite String.eqb_refl in *.
      destruct (antisym_shape gy gx by_ bx y x Hsy Hsx) as [H1 H2].
      now rewrite <- Hpair in H1, H2. }
  destruct Sg as [Sgy Sgx].
  remember (if py_eq pad "antisym" then 2 * y else y) as Y eqn:EY.
  remember (if py_eq pad "antisym" then 2 * x else x) as X eqn:EX.
  apply elementwise_inv in Hg. destruct Hg as (sg & Bg & Eg).
  cbn [shape smul] in Bg.
  rewrite Sgx, Sgy, (broadcast_shapes_app_ok _ _ _ _ Hbb) in Bg.
  injection Bg as <-.
  apply elementwise_inv in Hf. destruct Hf as (sf & Bf & Ef).
  rewrite Hfx, Hfy in Bf. cbn [shape smul astype] in Bf.
  rewrite broadcast_shapes_row_col in Bf. injection Bf as <-.
  assert (Sden : shape (l_f_den F) = [Y; X])
    by (now rewrite (setitem_shape _ _ _ Hden), Hraw, Ef).
  assert (Snum : shape (l_f_num F) = bb ++ [Y; X])
    by (now rewrite Hnum, fft2_shape, Eg).
  apply elementwise_inv in Hdiv. destruct Hdiv as (sp & Bp & Ep).
  rewrite Snum, Sden, broadcast_shapes_batch in Bp. injection Bp as <-.
  apply crop_inv in Hcrop. destruct Hcrop as (b' & Y' & X' & Sr & Er).
  cbn [shape real] in Sr.
  rewrite ifft2_shape, (setitem_shape _ _ _ Hset), Ep in Sr.
  cbn [shape] in Sr.
  apply app_last2_inj in Sr. destruct Sr as (<- & <- & <-).
  rewrite Er. cbn [shape]. f_equal.
  destruct (py_eq pad "antisym"); subst Y X; f_equal;
    [| f_equal | | f_equal]; lia.
Qed.

Lemma kottler_error_of_frame gy gx pad w log e :
  run gy gx pad w = (log, inl e) -> run_frame gy gx pad w = (log, inl e).
Proof.
  unfold kottler.
  destruct (kottler_frame check_shapes antisym gy gx pad w) as [l [e' | F]];
    simpl; intros H; inversion H; subst; reflexivity.
Qed.

(** X4.  Fields whose last two axes agree and whose leading axes differ but
    broadcast are accepted, when [check_shapes] accepts them: the call
    returns an array whose leading axes are the broadcast ones and whose
    last two axes are [(y, x)]. *)
Theorem kottler_broadcasts_leading_axes gy gx pad w by_ bx bb y x :
  isdtype (result_type (dtype gy) (dtype gx)) KRealFloating = true ->
  shape gy = by_ ++ [y; x] -> shape gx = bx ++ [y; x] ->
  broadcast_shapes bx by_ = Some bb ->
  check_shapes gx gy = inr (y, x) ->
  0 < y -> 0 < x ->
  pad = None \/ pad = Some "antisym"%string ->
  exists log out,
    run gy gx pad w = (log, inr out) /\ shape out = bb ++ [y; x].
Proof.
  intros Hdt Hsy Hsx Hbb Hcs Hy Hx Hpad.
  destruct (kottler_frame_total_broadcast gy gx pad w by_ bx bb y x
              Hdt Hsy Hsx Hbb Hcs Hy Hx Hpad) as (log & F & Hrun).
  exists log, (l_return F). split.
  - now apply kottler_of_frame_ok.
  - now apply (return_shape_broadcast gy gx pad w log F by_ bx bb y x).
Qed.

End KottlerBatch.

Lemma fftfreq_int_zero_only (n k : nat) :
  k < n -> fftfreq_int n k = 0%Z -> k = 0.
Proof.
  intros Hk. rewrite (fftfreq_int_standard n k Hk).
  destruct (2 * k <? n) eqn:E; lia.
Qed.

Section KottlerReturns.
Context {xp : ArrayNamespace}.
Variable check_shapes : Array -> Array -> Result (nat * nat).
Variable antisym : Array -> Array -> Array * Array.

Local Notation "'run_frame'" := (kottler_frame check_shapes antisym).
Local Notation "'run'" := (kottler check_shapes antisym).

Lemma kottler_return_of_frame gy gx pad w log out :
  run gy gx pad w = (log, inr out) ->
  exists F, run_frame gy gx pad w = (log, inr F) /\ out = l_return F.
Proof.
  unfold kottler.
  destruct (kottler_frame check_shapes antisym gy gx pad w) as [l [e | F]];
    simpl; intros H; inversion H; subst.
  exists F. now rewrite app_nil_r.
Qed.

(** X1.  Fields that pass the dtype test and the shape check with an empty
    last or second-to-last axis make the call raise [ZeroDivisionError] at
    [fftfreq(0)], for either pad mode (twice zero is zero), before the
    forward transform, any indexed assignment and the inverse transform. *)
Theorem kottler_empty_axis gy gx pad w y x :
  isdtype (result_type (dtype gy) (dtype gx)) KRealFloating = true ->
  check_shapes gx gy = inr (y, x) ->
  pad = None \/ pad = Some "antisym"%string ->
  x = 0 \/ y = 0 ->
  exists log,
    run gy gx pad w = (log, inl (ZeroDivisionError "float division by zero")) /\
    In (CallFftfreq 0) log /\
    ~ In CallFft2 log /\ ~ In CallSetitem log /\ ~ In CallIfft2 log.
Proof.
  intros Hdt Hcs Hpad Hxy.
  destruct x as [| x'].
  - eexists. split.
    + apply kottler_of_frame_error.
      apply (kottler_frame_empty_x _ _ _ _ _ _ y Hdt Hcs Hpad).
    + destruct Hpad as [-> | ->]; cbn; intuition discriminate.
  - destruct Hxy as [Hx | ->]; [discriminate |].
    eexists. split.
    + apply kottler_of_frame_error.
      apply (kottler_frame_empty_y _ _ _ _ _ _ (S x') Hdt Hcs
               (Nat.lt_0_succ x') Hpad).
    + destruct Hpad as [-> | ->]; cbn; intuition discriminate.
Qed.

(** X2.  A call that returns made exactly these calls, in this order: the
    dtype promotion and test, [get_dfts], [check_shapes], [antisym] when
    [pad] is ["antisym"] and not otherwise, [fftfreq] for the horizontal
    and then the vertical axis, one forward transform, two indexed
    assignments and one inverse transform. *)
Theorem kottler_call_sequence gy gx pad w log out :
  run gy gx pad w = (log, inr out) ->
  exists y x,
    check_shapes gx gy = inr (y, x) /\
    (pad = None \/ pad = Some "antisym"%string) /\
    log = [CallResultType; CallIsdtype; CallGetDfts; CallCheckShapes]
          ++ (if py_eq pad "antisym" then [CallAntisym] else [])
          ++ [CallFftfreq (if py_eq pad "antisym" then 2 * x else x);
              CallFftfreq (if py_eq pad "antisym" then 2 * y else y);
              CallFft2; CallSetitem; CallSetitem; CallIfft2].
Proof.
  intros Hrun. apply kottler_return_of_frame in Hrun.
  destruct Hrun as (F & Hrun & _).
  apply kottler_frame_inv in Hrun.
  destruct Hrun as (g & f & Hlog & _ & _ & Hcs & Hpad & _).
  exists (l_y F), (l_x F).
  rewrite (py_bool_valid pad Hpad) in Hlog. auto.
Qed.

(** The denominator of a run that returns, entry by entry. *)
Lemma denominator_entries gy gx pad w log F k l :
  run_frame gy gx pad w = (log, inr F) ->
  k < (if py_eq pad "antisym" then 2 * l_y F else l_y F) ->
  l < (if py_eq pad "antisym" then 2 * l_x F else l_x F) ->
  item (l_f_den_raw F) [k; l] =
  s_mul (s_mul (s_mul s_1j (s_float 2)) s_pi)
        (s_add (s_cast (l_dtype F)
                  (fftfreq_val
                     (if py_eq pad "antisym" then 2 * l_x F else l_x F) l))
               (s_mul s_1j
                  (s_cast (l_dtype F)
                     (fftfreq_val
                        (if py_eq pad "antisym" then 2 * l_y F else l_y F)
                        k)))).
Proof.
  intros Hrun Hk Hl. apply kottler_frame_inv in Hrun.
  destruct Hrun as (g & f & _ & _ & _ & _ & Hpad & _ & _ & _ & _
                    & Hfx & Hfy & _ & _ & Hf & Hraw & _).
  rewrite (py_bool_valid pad Hpad) in *.
  apply elementwise_inv in Hf. destruct Hf as (sf & Bf & Ef).
  rewrite Hraw, Ef. cbn [item smul shape].
  rewrite Hfx, Hfy. cbn [shape astype item].
  now rewrite (bindex_row _ k l Hl), (bindex_col _ k l Hk).
Qed.

(** X6.  In a run that returns, every entry [(k, l)] of [f_den] other than
    [(0, 0)] is [1j * 2.0 * pi * (fx[l] + 1j * fy[k])], where the two grid
    entries are the casts of [float(pl) * (1.0 / (X * 1.0))] and
    [float(pk) * (1.0 / (Y * 1.0))] at the integer sample positions [pl] and
    [pk] of the indices [l] and [k], and these two positions are not both
    zero: the zero frequency sits at the one entry that the indexed
    assignment replaces. *)
Theorem kottler_single_zero_frequency gy gx pad w log F k l :
  run_frame gy gx pad w = (log, inr F) ->
  k < (if py_eq pad "antisym" then 2 * l_y F else l_y F) ->
  l < (if py_eq pad "antisym" then 2 * l_x F else l_x F) ->
  (k, l) <> (0, 0) ->
  exists (Y X : nat) (pk pl : Z),
    Y = (if py_eq pad "antisym" then 2 * l_y F else l_y F) /\
    X = (if py_eq pad "antisym" then 2 * l_x F else l_x F) /\
    pk = (if 2 * k <? Y then Z.of_nat k else (Z.of_nat k - Z.of_nat Y)%Z) /\
    pl = (if 2 * l <? X then Z.of_nat l else (Z.of_nat l - Z.of_nat X)%Z) /\
    (pk, pl) <> (0%Z, 0%Z) /\
    item (l_f_den F) [k; l] =
      s_mul (s_mul (s_mul s_1j (s_float 2)) s_pi)
            (s_add (s_cast (l_dtype F)
                      (s_mul (s_float pl)
                             (s_div (s_float 1)
                                    (s_mul (s_float (Z.of_nat X))
                                           (s_float 1)))))
                   (s_mul s_1j
                      (s_cast (l_dtype F)
                         (s_mul (s_float pk)
                                (s_div (s_float 1)
                                       (s_mul (s_float (Z.of_nat Y))
                                              (s_float 1))))))).
Proof.
  intros Hrun Hk Hl Hkl.
  eexists _, _, _, _.
  split; [reflexivity |]. split; [reflexivity |].
  split; [reflexivity |]. split; [reflexivity |]. split.
  - rewrite <- (fftfreq_int_standard _ k Hk), <- (fftfreq_int_standard _ l Hl).
    intros E. injection E as Ek El. apply Hkl.
    now rewrite (fftfreq_int_zero_only _ _ Hk Ek),
                (fftfreq_int_zero_only _ _ Hl El).
  - rewrite <- (fftfreq_val_explicit _ k Hk), <- (fftfreq_val_explicit _ l Hl).
    rewrite <- (denominator_entries _ _ _ _ _ _ _ _ Hrun Hk Hl).
    apply kottler_frame_inv in Hrun.
    destruct Hrun as (g & f & _ & _ & _ & _ & _ & _ & _ & _ & _
                      & _ & _ & _ & _ & _ & _ & Hden & _).
    apply (setitem_item_other _ _ _ [] k l Hden Hkl).
Qed.

(** X3.  The frequency grids and the denominator do not depend on the
    values of the fields or on [workers]: two runs that return, with the
    same [pad], the same promoted dtype and the same result of
    [check_shapes], have the same [fx], [fy] and [f_den], before and after
    the indexed assignment. *)
Theorem kottler_denominator_of_extent
  gy1 gx1 w1 log1 F1 gy2 gx2 w2 log2 F2 pad :
  run_frame gy1 gx1 pad w1 = (log1, inr F1) ->
  run_frame gy2 gx2 pad w2 = (log2, inr F2) ->
  result_type (dtype gy1) (dtype gx1) = result_type (dtype gy2) (dtype gx2) ->
  check_shapes gx1 gy1 = check_shapes gx2 gy2 ->
  l_fx F1 = l_fx F2 /\ l_fy F1 = l_fy F2 /\
  l_f_den_raw F1 = l_f_den_raw F2 /\ l_f_den F1 = l_f_den F2.
Proof.
  intros H1 H2 Hdt Hcs.
  apply kottler_frame_inv in H1. apply kottler_frame_inv in H2.
  destruct H1 as (g1 & f1 & _ & Hd1 & _ & Hc1 & _ & _ & _ & _ & _
                  & Hfx1 & Hfy1 & _ & _ & Hf1 & Hraw1 & Hden1 & _).
  destruct H2 as (g2 & f2 & _ & Hd2 & _ & Hc2 & _ & _ & _ & _ & _
                  & Hfx2 & Hfy2 & _ & _ & Hf2 & Hraw2 & Hden2 & _).
  rewrite Hcs, Hc2 in Hc1. apply inr_eq in Hc1. injection Hc1 as Ey Ex.
  assert (Ed : l_dtype F1 = l_dtype F2) by congruence.
  assert (Efx : l_fx F1 = l_fx F2) by (rewrite Hfx1, Hfx2, ?Ey, ?Ex, Ed; reflexivity).
  assert (Efy : l_fy F1 = l_fy F2) by (rewrite Hfy1, Hfy2, ?Ey, ?Ex, Ed; reflexivity).
  rewrite Efx, Efy, Hf2 in Hf1. apply inr_eq in Hf1.
  assert (Eraw : l_f_den_raw F1 = l_f_den_raw F2) by congruence.
  rewrite Eraw, Hden2 in Hden1. apply inr_eq in Hden1.
  auto.
Qed.

End KottlerReturns.

Lemma M_rel_refl {A : Type} (P : A -> A -> Prop) (m : M A) :
  (forall a, P a a) -> M_rel P m m.
Proof.
  intros H. split; [reflexivity |]. destruct (snd m); [reflexivity | apply H].
Qed.

Lemma M_rel_bind {A B : Type} (P : A -> A -> Prop) (Q : B -> B -> Prop)
  (m m' : M A) (f f' : A -> M B) :
  M_rel P m m' ->
  (forall a a', P a a' -> M_rel Q (f a) (f' a')) ->
  M_rel Q (bind m f) (bind m' f').
Proof.
  destruct m as [l [e | a]], m' as [l' [e' | a']]; intros [Hl Hr] Hf;
    simpl in Hl, Hr; subst; try contradiction.
  - split; reflexivity.
  - specialize (Hf a a' Hr). unfold bind.
    destruct (f a) as [l1 r1], (f' a') as [l2 r2].
    destruct Hf as [Hl Hr']. simpl in Hl, Hr'. subst. split; [reflexivity |].
    exact Hr'.
Qed.

Lemma M_rel_bind_same {A B : Type} (Q : B -> B -> Prop)
  (m : M A) (f f' : A -> M B) :
  (forall a, snd m = inr a -> M_rel Q (f a) (f' a)) ->
  M_rel Q (bind m f) (bind m f').
Proof.
  intros Hf. destruct m as [l [e | a]].
  - split; reflexivity.
  - specialize (Hf a eq_refl). unfold bind.
    destruct (f a) as [l1 r1], (f' a) as [l2 r2].
    destruct Hf as [Hl Hr']. simpl in Hl, Hr'. subst. split; [reflexivity |].
    exact Hr'.
Qed.

Section KottlerWorkersOutcome.
Context {xp : ArrayNamespace}.
Variable check_shapes : Array -> Array -> Result (nat * nat).
Variable antisym : Array -> Array -> Array * Array.

Local Notation "'run_frame'" := (kottler_frame check_shapes antisym).
Local Notation "'run'" := (kottler check_shapes antisym).

Hypothesis fft2_shape : forall w a, shape (xp_fft2 w a) = shape a.
Hypothesis ifft2_shape : forall w a, shape (xp_ifft2 w a) = shape a.

Lemma elementwise_rel (f : scalar -> scalar -> scalar) (a a' b b' : Array) :
  same_shape a a' -> same_shape b b' ->
  M_rel same_shape (lift (elementwise f a b)) (lift (elementwise f a' b')).
Proof.
  unfold same_shape. intros Ha Hb. unfold elementwise. rewrite <- Ha, <- Hb.
  destruct (broadcast_shapes (shape a) (shape b)); split; reflexivity.
Qed.

Lemma setitem_rel (c : Call) (a a' : Array) (v : scalar) :
  same_shape a a' ->
  M_rel same_shape (call c (setitem a v)) (call c (setitem a' v)).
Proof.
  unfold same_shape. intros H. unfold setitem. rewrite <- H.
  destruct (split_last2 (shape a)) as [[[b Y] X] |]; [| split; reflexivity].
  destruct ((Y =? 0) || (X =? 0)); split; reflexivity.
Qed.

Lemma crop_real_rel (a a' : Array) (y x : nat) :
  same_shape a a' ->
  M_rel same_shape (lift (crop (real a) y x)) (lift (crop (real a') y x)).
Proof.
  unfold same_shape. intros H. unfold crop. cbn [shape real]. rewrite <- H.
  destruct (split_last2 (shape a)) as [[[b Y] X] |]; split; reflexivity.
Qed.

(** The padded fields have shapes that depend on the shapes of the fields
    only. *)
Hypothesis antisym_same_shape : forall gy gx gy' gx',
  same_shape gy gy' -> same_shape gx gx' ->
  same_shape (fst (antisym gy gx)) (fst (antisym gy' gx')) /\
  same_shape (snd (antisym gy gx)) (snd (antisym gy' gx')).

Lemma kottler_frame_values_outcome gy gx gy' gx' pad w :
  result_type (dtype gy) (dtype gx) = result_type (dtype gy') (dtype gx') ->
  check_shapes gx gy = check_shapes gx' gy' ->
  same_shape gy gy' -> same_shape gx gx' ->
  M_rel (fun F F' => same_shape (l_return F) (l_return F'))
        (run_frame gy gx pad w) (run_frame gy' gx' pad w).
Proof.
  intros Hdt Hcs Hgy Hgx. unfold kottler_frame. rewrite <- Hdt, <- Hcs.
  apply M_rel_bind_same; intros dt Edt.
  cbn in Edt. apply inr_eq in Edt. subst dt.
  apply M_rel_bind_same; intros rf _.
  destruct (negb rf); [apply M_rel_refl; reflexivity |].
  apply M_rel_bind_same; intros dfts Hdfts.
  cbn in Hdfts. apply inr_eq in Hdfts. subst dfts. unfold get_dfts.
  apply M_rel_bind_same; intros [y x] _.
  apply (M_rel_bind
           (fun p p' => same_shape (fst p) (fst p') /\
                        same_shape (snd p) (snd p'))).
  { destruct (py_eq pad "antisym").
    - split; [reflexivity |]. cbn. now apply antisym_same_shape.
    - destruct (is_None pad); split; try reflexivity.
      cbn. split; assumption. }
  intros [gy1 gx1] [gy2 gx2] [Hy1 Hx1]. cbn [fst snd] in Hy1, Hx1.
  apply M_rel_bind_same; intros fx _.
  apply M_rel_bind_same; intros fy _.
  apply M_rel_bind_same; intros fy1 _.
  apply (M_rel_bind same_shape);
    [apply elementwise_rel; [assumption | exact Hy1] |].
  intros g g' Hg.
  apply (M_rel_bind same_shape).
  { split; [reflexivity |]. cbn. unfold same_shape in *.
    now rewrite !fft2_shape. }
  intros f_num f_num' Hnum.
  apply M_rel_bind_same; intros f _.
  apply M_rel_bind_same; intros f_den _.
  apply (M_rel_bind same_shape);
    [apply elementwise_rel; [assumption | reflexivity] |].
  intros f_phase_raw f_phase_raw' Hraw.
  apply (M_rel_bind same_shape); [now apply setitem_rel |].
  intros f_phase f_phase' Hphase.
  apply (M_rel_bind same_shape).
  { split; [reflexivity |]. cbn. unfold same_shape in *.
    now rewrite !ifft2_shape. }
  intros r r' Hr.
  apply (M_rel_bind same_shape); [now apply crop_real_rel |].
  intros out out' Hout.
  split; [reflexivity | exact Hout].
Qed.

(** X8.  The values of the fields do not steer the call: for two pairs of
    fields of the same shapes, with the same promoted dtype and the same
    result of [check_shapes], the log, whether the call raises, the
    exception and the shape of the returned array are the same. *)
Theorem kottler_outcome_from_shapes gy gx gy' gx' pad w :
  result_type (dtype gy) (dtype gx) = result_type (dtype gy') (dtype gx') ->
  check_shapes gx gy = check_shapes gx' gy' ->
  shape gy = shape gy' -> shape gx = shape gx' ->
  fst (run gy gx pad w) = fst (run gy' gx' pad w) /\
  match snd (run gy gx pad w), snd (run gy' gx' pad w) with
  | inl e, inl e' => e = e'
  | inr out, inr out' => shape out = shape out'
  | _, _ => False
  end.
Proof.
  intros Hdt Hcs Hgy Hgx. unfold kottler.
  apply (M_rel_bind (fun F F' => same_shape (l_return F) (l_return F'))
                    same_shape).
  - now apply kottler_frame_values_outcome.
  - intros F F' H. split; [reflexivity | exact H].
Qed.

End KottlerWorkersOutcome.

(** A property of every logged call of a computation. *)
Lemma Forall_log_bind {A B : Type} (P : Call -> Prop) (m : M A) (f : A -> M B) :
  Forall P (fst m) -> (forall a, Forall P (fst (f a))) ->
  Forall P (fst (bind m f)).
Proof.
  intros Hm Hf. destruct m as [l [e | a]]; simpl in *; [assumption |].
  specialize (Hf a). destruct (f a) as [l' r]. simpl in *.
  apply Forall_app. now split.
Qed.

Section KottlerLog.
Context {xp : ArrayNamespace}.
Variable check_shapes : Array -> Array -> Result (nat * nat).
Variable antisym : Array -> Array -> Array * Array.

Local Notation "'run_frame'" := (kottler_frame check_shapes antisym).
Local Notation "'run'" := (kottler check_shapes antisym).

Lemma kottler_frame_log_no_antisym gy gx pad w :
  py_eq pad "antisym" = false ->
  Forall (fun c => c <> CallAntisym) (fst (run_frame gy gx pad w)).
Proof.
  intros Hpad. unfold kottler_frame. rewrite Hpad.
  assert (Hc : forall (A : Type) (c : Call) (r : Result A),
             c <> CallAntisym ->
             Forall (fun c => c <> CallAntisym) (fst (call c r)))
    by (intros; repeat constructor; assumption).
  assert (Hl : forall (A : Type) (r : Result A),
             Forall (fun c => c <> CallAntisym) (fst (lift r)))
    by (intros; constructor).
  apply Forall_log_bind; [apply Hc; discriminate | intros dt].
  apply Forall_log_bind; [apply Hc; discriminate | intros rf].
  destruct (negb rf); [constructor |].
  apply Forall_log_bind; [apply Hc; discriminate | intros [fft2 ifft2]].
  apply Forall_log_bind; [apply Hc; discriminate | intros [y x]].
  apply Forall_log_bind; [destruct (is_None pad); constructor
                         | intros [gy' gx']].
  apply Forall_log_bind; [apply Hc; discriminate | intros fx].
  apply Forall_log_bind; [apply Hc; discriminate | intros fy].
  apply Forall_log_bind; [apply Hl | intros fy1].
  apply Forall_log_bind; [apply Hl | intros g].
  apply Forall_log_bind; [apply Hc; discriminate | intros f_num].
  apply Forall_log_bind; [apply Hl | intros f].
  apply Forall_log_bind; [apply Hc; discriminate | intros f_den].
  apply Forall_log_bind; [apply Hl | intros f_phase_raw].
  apply Forall_log_bind; [apply Hc; discriminate | intros f_phase].
  apply Forall_log_bind; [apply Hc; discriminate | intros r].
  apply Forall_log_bind; [apply Hl | intros out].
  constructor.
Qed.

(** X9.  On every path, raising or returning, [antisym] is called only when
    [pad] is ["antisym"]. *)
Theorem kottler_pads_only_on_request gy gx pad w log r :
  run gy gx pad w = (log, r) ->
  In CallAntisym log ->
  pad = Some "antisym"%string.
Proof.
  intros Hrun Hin.
  destruct (py_eq pad "antisym") eqn:E; [now apply py_eq_true |].
  exfalso.
  pose proof (kottler_frame_log_no_antisym gy gx pad w E) as Hlog.
  assert (Hfst : fst (run gy gx pad w) = fst (run_frame gy gx pad w)).
  { unfold kottler.
    destruct (kottler_frame check_shapes antisym gy gx pad w) as [l [e | F]];
      simpl; [reflexivity | apply app_nil_r]. }
  rewrite Hrun in Hfst. simpl in Hfst. rewrite <- Hfst in Hlog.
  rewrite Forall_forall in Hlog. now apply (Hlog CallAntisym Hin).
Qed.

End KottlerLog.

Section KottlerGuard.
Context {xp : ArrayNamespace}.
Variable check_shapes : Array -> Array -> Result (nat * nat).
Variable antisym : Array -> Array -> Array * Array.

Local Notation "'run_frame'" := (kottler_frame check_shapes antisym).
Local Notation "'run'" := (kottler check_shapes antisym).

Lemma kottler_log_of_frame gy gx pad w :
  fst (run gy gx pad w) = fst (run_frame gy gx pad w).
Proof.
  unfold kottler.
  destruct (kottler_frame check_shapes antisym gy gx pad w) as [l [e | F]];
    simpl; [reflexivity | apply app_nil_r].
Qed.

(** X10.  The forward transform is reached only behind every guard: when the
    log of a call, raising or returning, shows the forward transform, the
    promoted dtype is real floating, [check_shapes] returned an extent with
    both axes non-empty, and [pad] is [None] or ["antisym"]. *)
Theorem kottler_transform_guard gy gx pad w log r :
  run gy gx pad w = (log, r) ->
  In CallFft2 log ->
  isdtype (result_type (dtype gy) (dtype gx)) KRealFloating = true /\
  (pad = None \/ pad = Some "antisym"%string) /\
  exists y x, check_shapes gx gy = inr (y, x) /\ 0 < y /\ 0 < x.
Proof.
  intros Hrun Hin.
  pose proof (kottler_log_of_frame gy gx pad w) as Hlog.
  rewrite Hrun in Hlog. cbn [fst] in Hlog. rewrite Hlog in Hin. clear Hlog Hrun.
  destruct (isdtype (result_type (dtype gy) (dtype gx)) KRealFloating) eqn:Hdt.
  2:{ rewrite (kottler_frame_dtype_error _ _ _ _ _ _ Hdt) in Hin.
      cbn in Hin. intuition discriminate. }
  destruct (check_shapes gx gy) as [e' | [y x]] eqn:Hcs.
  { rewrite (kottler_frame_shape_error _ _ _ _ _ _ e' Hdt Hcs) in Hin.
    cbn in Hin. intuition discriminate. }
  assert (Hpad : (pad = None \/ pad = Some "antisym"%string) \/
                 exists p, pad = Some p /\ p <> "antisym"%string).
  { destruct pad as [p |]; [| now left; left].
    destruct (String.eqb_spec p "antisym") as [-> | Hp]; [now left; right |].
    right. now exists p. }
  destruct Hpad as [Hpad | (p & -> & Hp)].
  2:{ rewrite (kottler_frame_pad_error _ _ _ _ _ _ y x Hdt Hcs Hp) in Hin.
      cbn in Hin. intuition discriminate. }
  split; [reflexivity |]. split; [assumption |].
  exists y, x. split; [reflexivity |].
  destruct x as [| x'].
  { rewrite (kottler_frame_empty_x _ _ _ _ _ _ y Hdt Hcs Hpad) in Hin.
    destruct Hpad as [-> | ->]; cbn in Hin; intuition discriminate. }
  destruct y as [| y'].
  { rewrite (kottler_frame_empty_y _ _ _ _ _ _ (S x') Hdt Hcs
               (Nat.lt_0_succ x') Hpad) in Hin.
    destruct Hpad as [-> | ->]; cbn in Hin; intuition discriminate. }
  lia.
Qed.

End KottlerGuard.

(** ** Before the forward transform *)

Section KottlerBeforeTransform.
Context {xp : ArrayNamespace}.
Variable check_shapes : Array -> Array -> Result (nat * nat).
Variable antisym : Array -> Array -> Array * Array.

Local Notation "'run_frame'" := (kottler_frame check_shapes antisym).
Local Notation "'run'" := (kottler check_shapes antisym).

Lemma kottler_frame_workers_until gy gx pad w w' :
  run_frame gy gx pad w = run_frame gy gx pad w' \/
  (In CallFft2 (fst (run_frame gy gx pad w)) /\
   In CallFft2 (fst (run_frame gy gx pad w'))).
Proof.
  unfold kottler_frame.
  apply bind_same_until; intros dt _.
  apply bind_same_until; intros rf _.
  destruct (negb rf); [left; reflexivity |].
  apply bind_same_until; intros dfts Hdfts.
  cbn in Hdfts. apply inr_eq in Hdfts. subst dfts. unfold get_dfts.
  apply bind_same_until; intros [y x] _.
  apply bind_same_until; intros [gy' gx'] _.
  apply bind_same_until; intros fx _.
  apply bind_same_until; intros fy _.
  apply bind_same_until; intros fy1 _.
  apply bind_same_until; intros g _.
  right. rewrite !bind_call_pure. cbn [fst]. split; left; reflexivity.
Qed.

(** X7.  [workers] is not looked at before the forward transform: a call
    whose log does not show the forward transform has the same log and the
    same result for every other value of [workers]. *)
Theorem kottler_workers_before_transform gy gx pad w w' log r :
  run gy gx pad w = (log, r) ->
  ~ In CallFft2 log ->
  run gy gx pad w' = (log, r).
Proof.
  intros Hrun Hno.
  destruct (kottler_frame_workers_until gy gx pad w w') as [E | [H1 _]].
  - unfold kottler in *. rewrite <- E. exact Hrun.
  - exfalso. apply Hno.
    rewrite <- (kottler_log_of_frame check_shapes antisym) in H1.
    rewrite Hrun in H1. exact H1.
Qed.

(** The run of valid fields of non-empty extent up to [gx + 1j * gy]: either
    the sum fails to broadcast, or the forward transform is called. *)
Lemma kottler_frame_at_sum gy gx pad w y x :
  isdtype (result_type (dtype gy) (dtype gx)) KRealFloating = true ->
  check_shapes gx gy = inr (y, x) ->
  0 < y -> 0 < x ->
  pad = None \/ pad = Some "antisym"%string ->
  (exists log,
     run_frame gy gx pad w =
     (log, inl (ValueError "operands could not be broadcast together"))) \/
  In CallFft2 (fst (run_frame gy gx pad w)).
Proof.
  intros Hdt Hcs Hy Hx Hpad.
  assert (HY : 0 < (if py_bool pad then 2 * y else y))
    by (destruct (py_bool pad); lia).
  assert (HX : 0 < (if py_bool pad then 2 * x else x))
    by (destruct (py_bool pad); lia).
  assert (Hd : exists l gy' gx',
    (if py_eq pad "antisym" then call CallAntisym (inr (antisym gy gx))
     else if is_None pad then ret (gy, gx)
     else raise (ValueError
                   (String.append "Invalid value for pad: " (py_str pad)))) =
    (l, inr (gy', gx'))).
  { destruct Hpad as [-> | ->].
    - exists [], gy, gx. reflexivity.
    - exists [CallAntisym], (fst (antisym gy gx)), (snd (antisym gy gx)).
      rewrite py_eq_refl. unfold call. now rewrite <- surjective_pairing. }
  destruct Hd as (l & gy' & gx' & Hd).
  destruct (broadcast_shapes (shape gx') (shape (smul s_1j gy')))
    as [s |] eqn:E.
  - right. unfold kottler_frame.
    eapply log_bind_step; [reflexivity |].
    eapply log_bind_step; [reflexivity |]. rewrite Hdt. cbn [negb].
    eapply log_bind_step; [reflexivity |]. unfold get_dfts. rewrite Hcs.
    eapply log_bind_step; [reflexivity |].
    eapply log_bind_step; [exact Hd |]. cbv beta iota.
    rewrite (fftfreq_ok _ HX). eapply log_bind_step; [reflexivity |].
    rewrite (fftfreq_ok _ HY). eapply log_bind_step; [reflexivity |].
    rewrite newaxis1_vector. eapply log_bind_step; [reflexivity |].
    unfold add at 1. rewrite (elementwise_ok _ _ _ s E).
    eapply log_bind_step; [reflexivity |].
    rewrite bind_call_pure. left. reflexivity.
  - left. eexists. unfold kottler_frame.
    apply bind_call_step. apply bind_call_step. rewrite Hdt. cbn [negb].
    apply bind_call_step. unfold get_dfts. rewrite Hcs.
    apply bind_call_step.
    eapply bind_step; [exact Hd |]. cbv beta iota.
    rewrite (fftfreq_ok _ HX). apply bind_call_step.
    rewrite (fftfreq_ok _ HY). apply bind_call_step.
    rewrite newaxis1_vector. apply bind_lift_step.
    unfold add at 1. unfold elementwise at 1. rewrite E.
    reflexivity.
Qed.

(** X5.  A call that raises before it reaches the forward transform raises
    the dtype error, what [check_shapes] raised, the invalid-pad error, the
    [ZeroDivisionError] of an empty axis, or the broadcast error of
    [gx + 1j * gy]. *)
Theorem kottler_raises_before_transform gy gx pad w log e :
  run gy gx pad w = (log, inl e) ->
  ~ In CallFft2 log ->
  e = ValueError "Input arrays must be real-valued." \/
  check_shapes gx gy = inl e \/
  e = ValueError (String.append "Invalid value for pad: " (py_str pad)) \/
  e = ZeroDivisionError "float division by zero" \/
  e = ValueError "operands could not be broadcast together".
Proof.
  intros Hrun Hno.
  apply (kottler_error_of_frame check_shapes antisym) in Hrun.
  destruct (isdtype (result_type (dtype gy) (dtype gx)) KRealFloating) eqn:Hdt.
  2:{ rewrite (kottler_frame_dtype_error _ _ _ _ _ _ Hdt) in Hrun.
      injection Hrun as _ <-. now left. }
  destruct (check_shapes gx gy) as [e' | [y x]] eqn:Hcs.
  { rewrite (kottler_frame_shape_error _ _ _ _ _ _ e' Hdt Hcs) in Hrun.
    injection Hrun as _ <-. right. now left. }
  assert (Hpad : (pad = None \/ pad = Some "antisym"%string) \/
                 exists p, pad = Some p /\ p <> "antisym"%string).
  { destruct pad as [p |]; [| now left; left].
    destruct (String.eqb_spec p "antisym") as [-> | Hp]; [now left; right |].
    right. now exists p. }
  destruct Hpad as [Hv | (p & -> & Hp)].
  2:{ rewrite (kottler_frame_pad_error _ _ _ _ _ _ y x Hdt Hcs Hp) in Hrun.
      injection Hrun as _ <-. right. right. now left. }
  destruct x as [| x'].
  { rewrite (kottler_frame_empty_x _ _ _ _ _ _ y Hdt Hcs Hv) in Hrun.
    injection Hrun as _ <-. tauto. }
  destruct y as [| y'].
  { rewrite (kottler_frame_empty_y _ _ _ _ _ _ (S x') Hdt Hcs
               (Nat.lt_0_succ x') Hv) in Hrun.
    injection Hrun as _ <-. tauto. }
  destruct (kottler_frame_at_sum gy gx pad w (S y') (S x') Hdt Hcs
              (Nat.lt_0_succ y') (Nat.lt_0_succ x') Hv) as [[l Hl] | Hin].
  - rewrite Hl in Hrun. injection Hrun as _ <-. tauto.
  - rewrite Hrun in Hin. contradiction.
Qed.

End KottlerBeforeTransform.

(** * The round trip *)

Section KottlerRoundTrip.
Context {xp : ArrayNamespace}.
Variable check_shapes : Array -> Array -> Result (nat * nat).
Variable antisym : Array -> Array -> Array * Array.

Local Notation "'run_frame'" := (kottler_frame check_shapes antisym).
Local Notation "'run'" := (kottler check_shapes antisym).

Hypothesis fft2_shape : forall w a, shape (xp_fft2 w a) = shape a.
Hypothesis ifft2_shape : forall w a, shape (xp_ifft2 w a) = shape a.

(** A run without padding on valid fields returns, and leaves the fields
    as they are. *)
Lemma kottler_frame_unpadded gy gx w b y x :
  isdtype (result_type (dtype gy) (dtype gx)) KRealFloating = true ->
  shape gy = b ++ [y; x] -> shape gx = b ++ [y; x] ->
  check_shapes gx gy = inr (y, x) ->
  0 < y -> 0 < x ->
  exists log F,
    run_frame gy gx None w = (log, inr F) /\
    l_y F = y /\ l_x F = x /\ l_gy F = gy /\ l_gx F = gx.
Proof.
  intros Hdt Hsy Hsx Hcs Hy Hx.
  assert (Hrun : exists log F, run_frame gy gx None w = (log, inr F)).
  { unfold kottler_frame.
    eexists. eexists.
    eapply bind_call_ok. eapply bind_call_ok. rewrite Hdt. cbn [negb].
    eapply bind_call_ok. unfold get_dfts.
    rewrite Hcs. eapply bind_call_ok.
    cbn [py_eq is_None py_bool].
    eapply bind_ok; [reflexivity |]. cbv beta iota.
    rewrite (fftfreq_ok x Hx). eapply bind_call_ok.
    rewrite (fftfreq_ok y Hy). eapply bind_call_ok.
    rewrite newaxis1_vector. eapply bind_lift_ok.
    unfold add at 1.
    rewrite (elementwise_ok _ _ _ (b ++ [y; x]))
      by (cbn [shape smul]; rewrite Hsx, Hsy; apply broadcast_shapes_refl).
    eapply bind_lift_ok. eapply bind_call_ok.
    unfold add.
    rewrite (elementwise_ok _ _ _ [y; x]) by apply broadcast_shapes_row_col.
    eapply bind_lift_ok.
    rewrite (setitem_ok _ _ [] y x) by (reflexivity || assumption).
    eapply bind_call_ok.
    unfold divide.
    rewrite (elementwise_ok _ _ _ (b ++ [y; x]))
      by (cbn [shape]; rewrite fft2_shape; apply broadcast_shapes_batch).
    eapply bind_lift_ok.
    rewrite (setitem_ok _ _ b y x) by (reflexivity || assumption).
    eapply bind_call_ok. eapply bind_call_ok.
    rewrite (crop_ok _ b y x) by (cbn [shape real]; apply ifft2_shape).
    eapply bind_lift_ok. reflexivity. }
  destruct Hrun as (log & F & Hrun). exists log, F.
  split; [exact Hrun |].
  apply kottler_frame_inv in Hrun.
  destruct Hrun as (g & f & _ & _ & _ & Hcs' & _ & Hpair & _).
  rewrite Hcs in Hcs'. apply inr_eq in Hcs'. injection Hcs' as Ey Ex.
  cbn [py_eq] in Hpair. injection Hpair as Egy Egx. auto.
Qed.

(** C7.  The round trip in exact arithmetic, without padding.  Let [phi0]
    be a field of the shape of the gradients whose spectrum vanishes at the
    zero frequency (a field of mean zero) and which the inverse transform
    gives back from its spectrum, reading the spectrum inside its shape
    only.  Let the gradients be the spectral derivatives of [phi0]: away
    from the zero frequency, the entry [(k, l)] of the transform of
    [gx + 1j * gy] is the entry [1j * 2.0 * pi * (fx[l] + 1j * fy[k])] of the
    differentiation operator times the entry of the spectrum of [phi0], and
    dividing this product by the operator entry gives the entry of the
    spectrum back.  Let storing [0.0] in any dtype give [0.0].  Then the
    call returns, and the returned field is the real part of [phi0] at
    every index. *)
Theorem kottler_recovers_spectral_field gy gx w b y x (phi0 : Array) :
  isdtype (result_type (dtype gy) (dtype gx)) KRealFloating = true ->
  shape gy = b ++ [y; x] -> shape gx = b ++ [y; x] ->
  check_shapes gx gy = inr (y, x) ->
  0 < y -> 0 < x ->
  shape phi0 = b ++ [y; x] ->
  (forall dt, s_cast dt (s_float 0) = s_float 0) ->
  (forall a, shape a = b ++ [y; x] ->
     (forall idx, in_range idx (b ++ [y; x]) ->
        item a idx = item (xp_fft2 w phi0) idx) ->
     forall idx, in_range idx (b ++ [y; x]) ->
       item (xp_ifft2 w a) idx = item phi0 idx) ->
  (forall bi, in_range bi b ->
     item (xp_fft2 w phi0) (bi ++ [0; 0]) = s_float 0) ->
  (forall g, add gx (smul s_1j gy) = inr g ->
   forall bi k l d,
     in_range bi b -> k < y -> l < x -> (k, l) <> (0, 0) ->
     d = s_mul (s_mul (s_mul s_1j (s_float 2)) s_pi)
           (s_add
              (s_cast (result_type (dtype gy) (dtype gx))
                 (s_mul (s_float (if 2 * l <? x then Z.of_nat l
                                  else (Z.of_nat l - Z.of_nat x)%Z))
                        (s_div (s_float 1)
                               (s_mul (s_float (Z.of_nat x)) (s_float 1)))))
              (s_mul s_1j
                 (s_cast (result_type (dtype gy) (dtype gx))
                    (s_mul (s_float (if 2 * k <? y then Z.of_nat k
                                     else (Z.of_nat k - Z.of_nat y)%Z))
                           (s_div (s_float 1)
                                  (s_mul (s_float (Z.of_nat y))
                                         (s_float 1))))))) ->
     item (xp_fft2 w g) (bi ++ [k; l]) =
       s_mul d (item (xp_fft2 w phi0) (bi ++ [k; l])) /\
     s_div (s_mul d (item (xp_fft2 w phi0) (bi ++ [k; l]))) d =
       item (xp_fft2 w phi0) (bi ++ [k; l])) ->
  exists log out,
    run gy gx None w = (log, inr out) /\
    shape out = b ++ [y; x] /\
    forall idx, in_range idx (b ++ [y; x]) ->
      item out idx = s_real (item phi0 idx).
Proof.
  intros Hdt Hsy Hsx Hcs Hy Hx Hphi Hcast Hinv Hdc Hspec.
  destruct (kottler_frame_unpadded gy gx w b y x Hdt Hsy Hsx Hcs Hy Hx)
    as (log & F & Hrun & Ey & Ex & Egy & Egx).
  exists log, (l_return F).
  split; [now apply kottler_of_frame_ok |].
  assert (Sgy : shape (l_gy F) = b ++ [y; x]) by (now rewrite Egy).
  assert (Sgx : shape (l_gx F) = b ++ [y; x]) by (now rewrite Egx).
  destruct (kernel_entries check_shapes antisym fft2_shape
              gy gx None w log F b y x Hrun Sgy Sgx Ey Ex)
    as (_ & _ & _ & Sphase & Hphase).
  pose proof (kottler_frame_inv _ _ _ _ _ _ _ _ Hrun) as Hinv'.
  destruct Hinv' as (g & f & _ & Edt & _ & _ & _ & _ & _ & _ & _ & _ & _
                     & Hg & Hnum & _ & _ & Hden & _ & Hset & Hcrop).
  rewrite Egx, Egy in Hg.
  assert (Hph : forall idx, in_range idx (b ++ [y; x]) ->
                  item (l_f_phase F) idx = item (xp_fft2 w phi0) idx).
  { intros idx Hidx.
    apply in_range_app_inv in Hidx.
    destruct Hidx as (bi & k & l & -> & Hbi & Hk & Hl).
    assert (Hkl : (k, l) = (0, 0) \/ (k, l) <> (0, 0)).
    { destruct k; [destruct l; [now left |] |]; right; congruence. }
    destruct Hkl as [Hkl | Hkl].
    - injection Hkl as -> ->.
      now rewrite (setitem_item_zero _ _ _ bi Hset), Hcast, (Hdc bi Hbi).
    - rewrite (setitem_item_other _ _ _ bi k l Hset Hkl).
      rewrite (Hphase bi k l Hbi Hk Hl), Hnum.
      pose proof (setitem_item_other _ _ _ [] k l Hden Hkl) as Hd.
      cbn [app] in Hd. rewrite Hd.
      assert (Hk' : k < (if py_eq None "antisym" then 2 * l_y F else l_y F))
        by (cbn [py_eq]; lia).
      assert (Hl' : l < (if py_eq None "antisym" then 2 * l_x F else l_x F))
        by (cbn [py_eq]; lia).
      rewrite (denominator_entries check_shapes antisym
                 gy gx None w log F k l Hrun Hk' Hl').
      cbn [py_eq]. rewrite Ey, Ex, Edt.
      rewrite (fftfreq_val_explicit x l Hl), (fftfreq_val_explicit y k Hk).
      destruct (Hspec g Hg bi k l _ Hbi Hk Hl Hkl eq_refl) as [H1 H2].
      now rewrite H1, H2. }
  assert (Sph : shape (l_f_phase F) = b ++ [y; x])
    by (now rewrite (setitem_shape _ _ _ Hset)).
  pose proof (Hinv (l_f_phase F) Sph Hph) as Hback.
  apply crop_inv in Hcrop. destruct Hcrop as (b' & Y' & X' & Sr & Er).
  cbn [shape real] in Sr. rewrite ifft2_shape, Sph in Sr.
  apply app_last2_inj in Sr. destruct Sr as (<- & <- & <-).
  rewrite Er, Ey, Ex. cbn [shape item real]. split.
  - now rewrite !Nat.min_id.
  - intros idx Hidx. now rewrite (Hback idx Hidx).
Qed.

End KottlerRoundTrip.

(** * Runs of the reference namespace, continued *)

Section ReferenceEdges.
Import Reference.

(** The reference [antisym] gives shapes that depend on the shapes only. *)
Lemma reference_antisym_same_shape (gy gx gy' gx' : NDArray C) :
  same_shape gy gy' -> same_shape gx gx' ->
  same_shape (fst (antisym gy gx)) (fst (antisym gy' gx')) /\
  same_shape (snd (antisym gy gx)) (snd (antisym gy' gx')).
Proof.
  unfold same_shape, antisym, antisym_field. cbn [fst snd].
  intros Hy Hx. rewrite <- Hy, <- Hx.
  destruct (split_last2 (shape gy)) as [[[b y] x] |],
           (split_last2 (shape gx)) as [[[b' y'] x'] |]; split;
    first [reflexivity | assumption].
Qed.

(** Fields of shape 2 x 0 (X1). *)
Lemma kottler_empty_axis_witness :
  exists log,
    run gy20 gx20 (Some "antisym"%string) None =
      (log, inl (ZeroDivisionError "float division by zero")) /\
    In (CallFftfreq 0) log /\
    ~ In CallFft2 log /\ ~ In CallSetitem log /\ ~ In CallIfft2 log.
Proof.
  apply (kottler_empty_axis (xp := namespace) check_shapes antisym
           gy20 gx20 (Some "antisym"%string) None 2 0).
  - reflexivity.
  - reflexivity.
  - right. reflexivity.
  - left. reflexivity.
Defined.

(** The padded call on the 2 x 2 example returns, with this log. *)
Lemma reference_call_antisym :
  exists log out,
    run gy22 gx22 (Some "antisym"%string) None = (log, inr out) /\
    log = [CallResultType; CallIsdtype; CallGetDfts; CallCheckShapes;
           CallAntisym; CallFftfreq 4; CallFftfreq 4;
           CallFft2; CallSetitem; CallSetitem; CallIfft2].
Proof.
  destruct reference_run_antisym as (log & F & Hrun & Ey & Ex).
  exists log, (l_return F). unfold run. split.
  - apply (kottler_of_frame_ok (xp := namespace)). exact Hrun.
  - apply (kottler_frame_inv (xp := namespace)) in Hrun.
    destruct Hrun as (g & f & Hlog & _).
    rewrite Ey, Ex in Hlog. exact Hlog.
Qed.

(** The calls of the padded call on the 2 x 2 example (X2). *)
Lemma kottler_call_sequence_witness :
  exists log out,
    run gy22 gx22 (Some "antisym"%string) None = (log, inr out) /\
    log = [CallResultType; CallIsdtype; CallGetDfts; CallCheckShapes;
           CallAntisym; CallFftfreq 4; CallFftfreq 4;
           CallFft2; CallSetitem; CallSetitem; CallIfft2].
Proof.
  destruct reference_call_antisym as (log & out & Hrun & _).
  exists log, out. split; [exact Hrun |].
  destruct (kottler_call_sequence (xp := namespace) check_shapes antisym
              gy22 gx22 (Some "antisym"%string) None log out Hrun)
    as (y & x & Hcs & _ & Hlog).
  apply inr_eq in Hcs. injection Hcs as <- <-. exact Hlog.
Defined.

(** The padded run on the second 2 x 2 example returns. *)
Lemma reference_run_antisym' :
  exists log F,
    run_frame gy22' gx22' (Some "antisym"%string) (Some 4%Z) = (log, inr F).
Proof.
  destruct (kottler_frame_total (xp := namespace) check_shapes antisym
              (fun _ => reference_dft2_shape false)
              (fun _ => reference_dft2_shape true)
              reference_antisym_shape
              gy22' gx22' (Some "antisym"%string) (Some 4%Z) [] 2 2
              eq_refl eq_refl eq_refl eq_refl
              (Nat.lt_0_succ 1) (Nat.lt_0_succ 1) (or_intror eq_refl))
    as (log & F & Hrun).
  exists log, F. exact Hrun.
Qed.

(** Two pairs of 2 x 2 fields share their denominator (X3). *)
Lemma kottler_denominator_of_extent_witness :
  exists log1 F1 log2 F2,
    run_frame gy22 gx22 (Some "antisym"%string) None = (log1, inr F1) /\
    run_frame gy22' gx22' (Some "antisym"%string) (Some 4%Z) = (log2, inr F2) /\
    l_f_den F1 = l_f_den F2.
Proof.
  destruct reference_run_antisym as (log1 & F1 & H1 & _).
  destruct reference_run_antisym' as (log2 & F2 & H2).
  exists log1, F1, log2, F2. split; [exact H1 |]. split; [exact H2 |].
  apply (kottler_denominator_of_extent (xp := namespace) check_shapes antisym
           gy22 gx22 None log1 F1 gy22' gx22' (Some 4%Z) log2 F2
           (Some "antisym"%string) H1 H2 eq_refl eq_refl).
Defined.

(** One field against a batch of three (X4). *)
Lemma kottler_broadcasts_leading_axes_witness :
  exists log out,
    run gy122 gx322 None None = (log, inr out) /\ shape out = [3; 2; 2].
Proof.
  apply (kottler_broadcasts_leading_axes (xp := namespace)
           check_shapes antisym
           (fun _ => reference_dft2_shape false)
           (fun _ => reference_dft2_shape true)
           reference_antisym_shape
           gy122 gx322 None None [1] [3] [3] 2 2).
  - reflexivity.
  - reflexivity.
  - reflexivity.
  - reflexivity.
  - reflexivity.
  - lia.
  - lia.
  - left. reflexivity.
Defined.

(** Fields of different extents fail at the shape check (X5). *)
Lemma kottler_raises_before_transform_witness :
  run gy22 gx23 None None =
    ([CallResultType; CallIsdtype; CallGetDfts; CallCheckShapes],
     inl (OtherError "ShapeError" "Input arrays must have the same shape.")) /\
  check_shapes gx23 gy22 =
    inl (OtherError "ShapeError" "Input arrays must have the same shape.").
Proof.
  assert (E : run gy22 gx23 None None =
    ([CallResultType; CallIsdtype; CallGetDfts; CallCheckShapes],
     inl (OtherError "ShapeError" "Input arrays must have the same shape.")))
    by reflexivity.
  split; [exact E |].
  destruct (kottler_raises_before_transform (xp := namespace)
              check_shapes antisym gy22 gx23 None None _ _ E)
    as [H | [H | [H | [H | H]]]]; try discriminate H.
  - cbn. intuition discriminate.
  - exact H.
Defined.

(** The entry (1, 0) of the padded denominator (X6). *)
Lemma kottler_single_zero_frequency_witness :
  exists log F,
    run_frame gy22 gx22 (Some "antisym"%string) None = (log, inr F) /\
    item (l_f_den F) [1; 0] =
      c_mul (c_mul (c_mul c_1j (c_of_Z 2)) c_pi)
            (c_add (c_cast (l_dtype F)
                      (c_mul (c_of_Z 0)
                             (c_div (c_of_Z 1)
                                    (c_mul (c_of_Z 4) (c_of_Z 1)))))
                   (c_mul c_1j
                      (c_cast (l_dtype F)
                         (c_mul (c_of_Z 1)
                                (c_div (c_of_Z 1)
                                       (c_mul (c_of_Z 4) (c_of_Z 1))))))).
Proof.
  destruct reference_run_antisym as (log & F & Hrun & Ey & Ex).
  exists log, F. split; [exact Hrun |].
  assert (Hk : 1 < (if py_eq (Some "antisym"%string) "antisym"
                    then 2 * l_y F else l_y F)).
  { cbn [py_eq]. rewrite String.eqb_refl, Ey. cbn. lia. }
  assert (Hl : 0 < (if py_eq (Some "antisym"%string) "antisym"
                    then 2 * l_x F else l_x F)).
  { cbn [py_eq]. rewrite String.eqb_refl, Ex. cbn. lia. }
  destruct (kottler_single_zero_frequency (xp := namespace)
              check_shapes antisym
              gy22 gx22 (Some "antisym"%string) None log F 1 0 Hrun Hk Hl)
    as (Y & X & pk & pl & EY & EX & Epk & Epl & _ & Hden).
  - discriminate.
  - cbn [py_eq] in EY, EX. rewrite String.eqb_refl, Ey in EY.
    rewrite String.eqb_refl, Ex in EX. cbn in EY, EX. subst Y X.
    cbn in Epk, Epl. subst pk pl. exact Hden.
Defined.

(** One and four workers on fields with an empty axis (X7). *)
Lemma kottler_workers_before_transform_witness :
  run gy20 gx20 None (Some 1%Z) =
    ([CallResultType; CallIsdtype; CallGetDfts; CallCheckShapes;
      CallFftfreq 0],
     inl (ZeroDivisionError "float division by zero")) /\
  run gy20 gx20 None (Some 4%Z) =
    ([CallResultType; CallIsdtype; CallGetDfts; CallCheckShapes;
      CallFftfreq 0],
     inl (ZeroDivisionError "float division by zero")).
Proof.
  assert (E : run gy20 gx20 None (Some 1%Z) =
    ([CallResultType; CallIsdtype; CallGetDfts; CallCheckShapes;
      CallFftfreq 0],
     inl (ZeroDivisionError "float division by zero")))
    by reflexivity.
  split; [exact E |].
  apply (kottler_workers_before_transform (xp := namespace)
           check_shapes antisym gy20 gx20 None (Some 1%Z) (Some 4%Z) _ _ E).
  cbn. intuition discriminate.
Defined.

(** Two pairs of 2 x 2 fields run alike (X8). *)
Lemma kottler_outcome_from_shapes_witness :
  fst (run gy22 gx22 None None) = fst (run gy22' gx22' None None) /\
  match snd (run gy22 gx22 None None), snd (run gy22' gx22' None None) with
  | inl e, inl e' => e = e'
  | inr out, inr out' => shape out = shape out'
  | _, _ => False
  end.
Proof.
  apply (kottler_outcome_from_shapes (xp := namespace) check_shapes antisym
           (fun _ => reference_dft2_shape false)
           (fun _ => reference_dft2_shape true)
           reference_antisym_same_shape
           gy22 gx22 gy22' gx22' None None).
  - reflexivity.
  - reflexivity.
  - reflexivity.
  - reflexivity.
Defined.

(** The padded call logs [antisym] (X9). *)
Lemma kottler_pads_only_on_request_witness :
  exists log out,
    run gy22 gx22 (Some "antisym"%string) None = (log, inr out) /\
    In CallAntisym log /\
    Some "antisym"%string = Some "antisym"%string.
Proof.
  destruct reference_call_antisym as (log & out & Hrun & Hlog).
  exists log, out. split; [exact Hrun |].
  assert (Hin : In CallAntisym log) by (rewrite Hlog; cbn; auto 10).
  split; [exact Hin |].
  exact (kottler_pads_only_on_request (xp := namespace) check_shapes antisym
           gy22 gx22 (Some "antisym"%string) None log (inr out) Hrun Hin).
Defined.

(** The padded call reaches the forward transform (X10). *)
Lemma kottler_transform_guard_witness :
  exists log out,
    run gy22 gx22 (Some "antisym"%string) None = (log, inr out) /\
    exists y x, check_shapes gx22 gy22 = inr (y, x) /\ 0 < y /\ 0 < x.
Proof.
  destruct reference_call_antisym as (log & out & Hrun & Hlog).
  exists log, out. split; [exact Hrun |].
  assert (Hin : In CallFft2 log) by (rewrite Hlog; cbn; auto 10).
  destruct (kottler_transform_guard (xp := namespace) check_shapes antisym
              gy22 gx22 (Some "antisym"%string) None log (inr out) Hrun Hin)
    as (_ & _ & H).
  exact H.
Defined.

End ReferenceEdges.

Section ReferenceRoundTrip.
Import Reference.

Lemma reference_cast_zero (dt : DType) : c_cast dt (c_of_Z 0) = c_of_Z 0.
Proof. destruct dt; reflexivity. Qed.

(** The reference transforms read their argument inside its shape only. *)
Lemma reference_dft2_ext (inverse : bool) (a a' : NDArray C) b Y X :
  shape a = b ++ [Y; X] -> shape a' = b ++ [Y; X] ->
  (forall idx, in_range idx (b ++ [Y; X]) -> item a idx = item a' idx) ->
  forall idx, in_range idx (b ++ [Y; X]) ->
    item (dft2 inverse a) idx = item (dft2 inverse a') idx.
Proof.
  intros Ha Ha' Hext idx Hidx.
  apply in_range_app_inv in Hidx.
  destruct Hidx as (bi & k & l & -> & Hbi & Hk & Hl).
  unfold dft2. rewrite Ha, Ha', !split_last2_app. cbn [item].
  rewrite split_last2_app.
  assert (E : map (fun m : nat =>
                c_sum (map (fun n : nat =>
                  c_mul (item a (bi ++ [m; n]))
                        (c_mul (twiddle inverse Y (m * k))
                               (twiddle inverse X (n * l)))) (seq 0 X)))
                (seq 0 Y) =
              map (fun m : nat =>
                c_sum (map (fun n : nat =>
                  c_mul (item a' (bi ++ [m; n]))
                        (c_mul (twiddle inverse Y (m * k))
                               (twiddle inverse X (n * l)))) (seq 0 X)))
                (seq 0 Y)).
  { apply map_ext_in. intros m Hm. f_equal.
    apply map_ext_in. intros n Hn.
    apply in_seq in Hm. apply in_seq in Hn.
    rewrite (Hext (bi ++ [m; n])); [reflexivity |].
    apply in_range_app; [assumption | apply in_range_2; lia]. }
  now rewrite E.
Qed.

Lemma in_range_44 (idx : Index) :
  in_range idx [4; 4] ->
  In idx [[0; 0]; [0; 1]; [0; 2]; [0; 3]; [1; 0]; [1; 1]; [1; 2]; [1; 3];
          [2; 0]; [2; 1]; [2; 2]; [2; 3]; [3; 0]; [3; 1]; [3; 2]; [3; 3]].
Proof.
  intros H. apply (in_range_app_inv idx [] 4 4) in H.
  destruct H as (bi & k & l & -> & Hbi & Hk & Hl). inversion Hbi; subst.
  destruct k as [| [| [| [| k]]]]; try lia;
    destruct l as [| [| [| [| l]]]]; try lia; cbn; auto 20.
Qed.

(** The inverse transform gives the centred 4 x 4 field back from its
    spectrum. *)
Lemma reference_inverse_phi44 (w : option Z) (a : NDArray C) :
  shape a = [4; 4] ->
  (forall idx, in_range idx [4; 4] ->
     item a idx = item (dft2 false phi44_centred) idx) ->
  forall idx, in_range idx [4; 4] ->
    item (dft2 true a) idx = item phi44_centred idx.
Proof.
  intros Ha Hext idx Hidx.
  rewrite (reference_dft2_ext true a (dft2 false phi44_centred) [] 4 4
             Ha eq_refl Hext idx Hidx).
  apply in_range_44 in Hidx. cbn [In] in Hidx.
  repeat (destruct Hidx as [<- | Hidx]; [vm_compute; reflexivity |]).
  contradiction.
Qed.

(** The spectrum of the gradients of the 4 x 4 field is the differentiation
    operator times the spectrum of the field, and dividing by the operator
    gives the spectrum back. *)
Lemma reference_spectral_gradient_phi44 (w : option Z) (g : NDArray C) :
  add gx44 (smul c_1j gy44) = inr g ->
  forall bi k l d,
    in_range bi [] -> k < 4 -> l < 4 -> (k, l) <> (0, 0) ->
    d = c_mul (c_mul (c_mul c_1j (c_of_Z 2)) c_pi)
          (c_add
             (c_cast (promote (dtype gy44) (dtype gx44))
                (c_mul (c_of_Z (if 2 * l <? 4 then Z.of_nat l
                                else (Z.of_nat l - Z.of_nat 4)%Z))
                       (c_div (c_of_Z 1)
                              (c_mul (c_of_Z (Z.of_nat 4)) (c_of_Z 1)))))
             (c_mul c_1j
                (c_cast (promote (dtype gy44) (dtype gx44))
                   (c_mul (c_of_Z (if 2 * k <? 4 then Z.of_nat k
                                   else (Z.of_nat k - Z.of_nat 4)%Z))
                          (c_div (c_of_Z 1)
                                 (c_mul (c_of_Z (Z.of_nat 4))
                                        (c_of_Z 1))))))) ->
    item (dft2 false g) (bi ++ [k; l]) =
      c_mul d (item (dft2 false phi44_centred) (bi ++ [k; l])) /\
    c_div (c_mul d (item (dft2 false phi44_centred) (bi ++ [k; l]))) d =
      item (dft2 false phi44_centred) (bi ++ [k; l]).
Proof.
  intros Hg bi k l d Hbi Hk Hl Hkl ->.
  apply (elementwise_inv (xp := namespace)) in Hg.
  destruct Hg as (s & Hs & ->).
  vm_compute in Hs. injection Hs as <-.
  inversion Hbi; subst.
  destruct k as [| [| [| [| k]]]]; try lia;
    destruct l as [| [| [| [| l]]]]; try lia;
    try (exfalso; apply Hkl; reflexivity);
    split; vm_compute; reflexivity.
Qed.

(** The periodic 4 x 4 field is recovered from its gradients (C7). *)
Lemma kottler_recovers_spectral_field_witness :
  exists log out,
    run gy44 gx44 None None = (log, inr out) /\
    shape out = [4; 4] /\
    forall idx, in_range idx [4; 4] ->
      item out idx = c_real (item phi44_centred idx).
Proof.
  apply (kottler_recovers_spectral_field (xp := namespace)
           check_shapes antisym
           (fun _ => reference_dft2_shape false)
           (fun _ => reference_dft2_shape true)
           gy44 gx44 None [] 4 4 phi44_centred).
  - reflexivity.
  - reflexivity.
  - reflexivity.
  - reflexivity.
  - lia.
  - lia.
  - reflexivity.
  - exact reference_cast_zero.
  - exact (reference_inverse_phi44 None).
  - intros bi Hbi. inversion Hbi. reflexivity.
  - exact (reference_spectral_gradient_phi44 None).
Defined.

(** C7, counterexample.  The ramp [phi(k, l) = k + 2 l] on a 2 x 2 grid has
    the differences [gy = 1] and [gx = 2] along its two axes, which are also
    its analytic gradient.  The call without padding returns the zero
    field: of the transform of the constant field [gx + 1j * gy] only the
    entry at the zero frequency is non-zero, and that entry is replaced by
    [0.0].  The ramp minus its mean is [-3/2, 1/2, -1/2, 3/2], so the two
    do not agree within 1e-6, relative and absolute; hence it is not the
    case that every field is recovered, up to a constant and within this
    tolerance, from its differences. *)
Lemma kottler_round_trip_counterexample :
  (forall k l, k < 2 -> l < 2 ->
     item gy22 [k; l] =
       c_add (item phi22 [1; l]) (c_neg (item phi22 [0; l])) /\
     item gx22 [k; l] =
       c_add (item phi22 [k; 1]) (c_neg (item phi22 [k; 0]))) /\
  returned_entries 2 2 (run gy22 gx22 None None) =
    Some ([2; 2], [0; 0; 0; 0]%Q) /\
  centred [0; 0; 0; 0]%Q = [0; 0; 0; 0]%Q /\
  centred (entries 2 2 phi22) = [-3 # 2; 1 # 2; -1 # 2; 3 # 2]%Q /\
  round_trip (1 # 1000000) (1 # 1000000) 2 2
             (run gy22 gx22 None None) phi22 = Some false /\
  ~ (forall phi gy gx : NDArray C,
       dtype gy = Float64 -> dtype gx = Float64 ->
       shape phi = [2; 2] -> shape gy = [2; 2] -> shape gx = [2; 2] ->
       (forall k l, k < 2 -> l < 2 ->
          item gy [k; l] =
            c_add (item phi [1; l]) (c_neg (item phi [0; l])) /\
          item gx [k; l] =
            c_add (item phi [k; 1]) (c_neg (item phi [k; 0]))) ->
       round_trip (1 # 1000000) (1 # 1000000) 2 2
                  (run gy gx None None) phi = Some true).
Proof.
  assert (G : forall k l, k < 2 -> l < 2 ->
     item gy22 [k; l] =
       c_add (item phi22 [1; l]) (c_neg (item phi22 [0; l])) /\
     item gx22 [k; l] =
       c_add (item phi22 [k; 1]) (c_neg (item phi22 [k; 0]))).
  { intros k l Hk Hl.
    destruct k as [| [| k]]; try lia; destruct l as [| [| l]]; try lia;
      split; vm_compute; reflexivity. }
  assert (E : round_trip (1 # 1000000) (1 # 1000000) 2 2
                (run gy22 gx22 None None) phi22 = Some false)
    by (vm_compute; reflexivity).
  split; [exact G |].
  split; [vm_compute; reflexivity |].
  split; [vm_compute; reflexivity |].
  split; [vm_compute; reflexivity |].
  split; [exact E |].
  intros H.
  specialize (H phi22 gy22 gx22 eq_refl eq_refl eq_refl eq_refl eq_refl G).
  rewrite E in H. discriminate H.
Qed.

(** The run on the gradients of the periodic 4 x 4 field: the returned field
    is the field minus its mean, exactly. *)
Example periodic_field_runs :
  returned_entries 4 4 (run gy44 gx44 None None) =
    Some ([4; 4],
          [1; 3; 1; -1; 0; 2; 0; -2; -1; 1; -1; -3; 0; 2; 0; -2]%Q) /\
  centred (entries 4 4 phi44) =
    [1; 3; 1; -1; 0; 2; 0; -2; -1; 1; -1; -3; 0; 2; 0; -2]%Q /\
  round_trip 0 0 4 4 (run gy44 gx44 None None) phi44 = Some true.
Proof. split; [| split]; vm_compute; reflexivity. Qed.

End ReferenceRoundTrip.
